(** * econsieve: the transposed ensemble Kalman filter and its RTS smoother

    A shallow embedding of [src/econsieve/tenkf.py] (class [TEnKF]:
    [__init__], [batch_filter], [rts_smoother]) and the properties of it
    that the specification states.

    Modelling conventions
    - A numpy float is an element of an abstract scalar type [F] with the
      operations the code uses ([+], [-], [*], [/]); nothing is assumed about
      them except where a statement says so (a field structure, for the
      algebraic identities).  Scalar arithmetic is total, as it is in numpy
      (a division by zero yields inf or nan and a warning, not an exception).
    - A 1-d array is a list, a 2-d array a list of rows, a 3-d array (the
      stored histories, shape T x D x N) a record with its two inner
      dimensions and the list of its T cells.
    - A Python exception is a value [Raise e] of the [result] type; the
      statements of the code are sequenced with the bind of that monad.
    - The attributes that [batch_filter] creates on the object are optional
      fields of the object record: reading a missing one is AttributeError.
    - numpy raises on operands whose shapes do not conform; the binary array
      operations of the model are total (they compute on the common part),
      and slice assignment into a history checks the shape. *)

From Stdlib Require Import List ZArith QArith Qcanon Field Lia String.
From stdpp Require Import base list.
Import ListNotations.

(** ** Exceptions and the result monad *)

Inductive exn : Type :=
| AttributeError (attr : string)
| ValueError (msg : string)
| IndexError
| LinAlgError.

Inductive result (A : Type) : Type :=
| Ok (a : A)
| Raise (e : exn).
Arguments Ok {A} a.
Arguments Raise {A} e.

#[export] Instance result_ret : MRet result := fun A a => Ok a.
#[export] Instance result_bind : MBind result :=
  fun A B f m => match m with Ok a => f a | Raise e => Raise e end.

(** A Python [for] loop whose body may raise: the body is run on the items in
    order, threading the loop state, and the first exception ends the loop. *)
Fixpoint for_each {A S : Type} (body : A -> S -> result S) (items : list A) (s : S)
  : result S :=
  match items with
  | [] => Ok s
  | a :: rest => s' ← body a s; for_each body rest s'
  end.

(** [getattr name v]: reading attribute [name] of the object. *)
Definition getattr {A : Type} (name : string) (v : option A) : result A :=
  match v with
  | Some a => Ok a
  | None => Raise (AttributeError name)
  end.

(** Python truthiness of an optional int ([None] and [0] are false). *)
Definition truthy_seed (s : option nat) : bool :=
  match s with
  | Some (S _) => true
  | _ => false
  end.

(** [a or b] on optional ints. *)
Definition or_seed (a b : option nat) : option nat :=
  if truthy_seed a then a else b.

(** ** Scalars *)

(** The float operations the code uses, and [bool(x)] for a float [x]. *)
Class Scalar (F : Type) : Type :=
  { fzero : F;
    fone : F;
    fadd : F -> F -> F;
    fsub : F -> F -> F;
    fmul : F -> F -> F;
    fdiv : F -> F -> F;
    truthy : F -> bool }.

Declare Scope F_scope.
Delimit Scope F_scope with F.
Infix "+" := fadd : F_scope.
Infix "-" := fsub : F_scope.
Infix "*" := fmul : F_scope.
Infix "/" := fdiv : F_scope.

(** ** Arrays *)

Section Arrays.
Context {F : Type} {SF : Scalar F}.

Definition vec : Type := list F.
Definition matrix : Type := list (list F).

(** A 3-d array: [cells] are its slices along axis 0, each of shape
    [dim1 x dim2]. *)
Record ndarray3 : Type := mk_ndarray3
  { dim1 : nat; dim2 : nat; cells : list matrix }.

Definition ncols (M : matrix) : nat := length (hd [] M).

(** [M.shape == (r, c)] *)
Definition has_shape (r c : nat) (M : matrix) : bool :=
  (length M =? r) && forallb (fun row => length row =? c) M.

Definition vsum (v : vec) : F := fold_right fadd fzero v.
Definition dot (u v : vec) : F := vsum (zip_with fmul u v).

Definition vadd (u v : vec) : vec := zip_with fadd u v.
Definition vsub (u v : vec) : vec := zip_with fsub u v.

(** [M[:, j]] *)
Definition col (j : nat) (M : matrix) : vec := map (fun row => nth j row fzero) M.

(** [M.T] *)
Definition transpose (M : matrix) : matrix :=
  map (fun j => col j M) (seq 0 (ncols M)).

(** [A @ B] *)
Definition matmul (A B : matrix) : matrix :=
  map (fun row => map (fun j => dot row (col j B)) (seq 0 (ncols B))) A.

(** [A @ v] for a 1-d [v] *)
Definition mulmv (A : matrix) (v : vec) : vec := map (fun row => dot row v) A.

Definition mat_add (A B : matrix) : matrix := zip_with vadd A B.
Definition mat_sub (A B : matrix) : matrix := zip_with vsub A B.

(** [c * M], [M * c] and [M / c] for a scalar [c] *)
Definition scale (c : F) (M : matrix) : matrix := map (map (fmul c)) M.
Definition scale_r (M : matrix) (c : F) : matrix :=
  map (map (fun v => (v * c)%F)) M.
Definition div_scalar (M : matrix) (c : F) : matrix :=
  map (map (fun v => (v / c)%F)) M.

(** [np.ones(n)], [np.zeros(n)], [np.eye(n)], [np.outer(u, v)] *)
Definition np_ones (n : nat) : vec := repeat fone n.
Definition np_zeros (n : nat) : vec := repeat fzero n.
Definition np_eye (n : nat) : matrix :=
  map (fun i => map (fun j => if (i =? j)%nat then fone else fzero) (seq 0 n))
    (seq 0 n).
Definition np_outer (u v : vec) : matrix := map (fun a => map (fmul a) v) u.

(** Conversion of a Python int to a float. *)
Fixpoint of_nat (n : nat) : F :=
  match n with
  | O => fzero
  | S O => fone
  | S m => (of_nat m + fone)%F
  end.

Definition of_int (z : BinNums.Z) : F :=
  match z with
  | Z0 => fzero
  | Zpos p => of_nat (Pos.to_nat p)
  | Zneg p => (fzero - of_nat (Pos.to_nat p))%F
  end.

(** [np.mean(Y, axis=1)]: the mean of every row. *)
Definition np_mean_axis1 (Y : matrix) : vec :=
  map (fun row => (vsum row / of_nat (ncols Y))%F) Y.

(** [np.cov(Y)] (rows are variables, columns observations, [ddof = 1]):
    numpy subtracts the row means, multiplies the centred array with its
    transpose and scales by [1 / fact], where [fact = Y.shape[1] - 1], set
    to [0.0] (with a warning) when that is not positive.  For a single row
    numpy squeezes the 1 x 1 result to a scalar, which the addition of [R]
    broadcasts back to 1 x 1. *)
Definition np_cov_fact (n : nat) : F :=
  if (Z.of_nat n - 1 <=? 0)%Z then fzero else of_int (Z.of_nat n - 1).

Definition np_cov (Y : matrix) : matrix :=
  let avg := np_mean_axis1 Y in
  let Yc := zip_with (fun row a => map (fun v => (v - a)%F) row) Y avg in
  scale_r (matmul Yc (transpose Yc)) (fone / np_cov_fact (ncols Y))%F.

(** [X[:, i] = v] *)
Definition set_col (i : nat) (v : vec) (X : matrix) : matrix :=
  zip_with (fun row a => <[i := a]> row) X v.

(** [np.empty((t, d, n))]: uninitialised memory, here filled with zeros. *)
Definition np_empty3 (t d n : nat) : ndarray3 :=
  {| dim1 := d; dim2 := n; cells := repeat (repeat (repeat fzero n) d) t |}.

(** [a[i]] for [0 <= i]; IndexError out of range. *)
Definition getitem3 (a : ndarray3) (i : nat) : result matrix :=
  match cells a !! i with
  | Some M => Ok M
  | None => Raise IndexError
  end.

(** [a[-1]] *)
Definition getitem3_last (a : ndarray3) : result matrix :=
  match last (cells a) with
  | Some M => Ok M
  | None => Raise IndexError
  end.

(** [a[i, :, :] = M]: numpy raises ValueError when [M] cannot be broadcast
    to the shape of the slice; the model requires the shapes to be equal. *)
Definition setitem3 (a : ndarray3) (i : nat) (M : matrix) : result ndarray3 :=
  if negb (i <? length (cells a))%nat then Raise IndexError
  else if negb (has_shape (dim1 a) (dim2 a) M)
       then Raise (ValueError "could not broadcast input array")
       else Ok {| dim1 := dim1 a; dim2 := dim2 a; cells := <[i := M]> (cells a) |}.

(** [np.rollaxis(a, 2)]: the last axis becomes the first,
    [out[n][t][d] = a[t][d][n]]. *)
Definition np_rollaxis2 (a : ndarray3) : ndarray3 :=
  {| dim1 := length (cells a); dim2 := dim1 a;
     cells := map (fun n => map (col n) (cells a)) (seq 0 (dim2 a)) |}.

(** [bool(a)] for a 2-d array: false when empty, the truth value of the
    element when there is one, ValueError otherwise. *)
Definition array_size (M : matrix) : nat := length (concat M).

Definition array_bool (M : matrix) : result bool :=
  match concat M with
  | [] => Ok false
  | [a] => Ok (truthy a)
  | _ => Raise (ValueError
           "The truth value of an array with more than one element is ambiguous")
  end.

End Arrays.

Arguments vec F : clear implicits.
Arguments matrix F : clear implicits.
Arguments ndarray3 F : clear implicits.

(** ** Collaborators *)

Class Collaborators (F : Type) : Type :=
  { (** [fx]: the transition function; [t_func x eps] is the first component
        of the tuple that [self.t_func(x, eps)] returns. *)
    t_func : vec F -> vec F -> vec F;
    (** [hx]: the observation function, applied to the transposed ensemble. *)
    o_func : matrix F -> matrix F;
    (** [numpy.linalg.inv]: raises LinAlgError on a matrix it finds singular. *)
    np_linalg_inv : matrix F -> result (matrix F);
    (** [grgrlib.core.tinv]: the generalised inverse used by the smoother. *)
    tinv : matrix F -> matrix F;
    (** [.stats.logpdf(x, mean, cov)] *)
    logpdf : vec F -> vec F -> matrix F -> F;
    (** numpy's global random generator: its state, [np.random.seed], and the
        drawing of [count] vectors from a multivariate normal. *)
    G : Type;
    np_random_seed : nat -> G;
    mvn_draw : G -> vec F -> matrix F -> nat -> list (vec F) * G }.

(** ** The filter object *)

Section TEnKF.
Context {F : Type} {SF : Scalar F} {CF : Collaborators F}.

#[local] Abbreviation vec := (vec F).
#[local] Abbreviation matrix := (matrix F).
#[local] Abbreviation ndarray3 := (ndarray3 F).

(** The attributes of a [TEnKF] object.  Those set by [__init__] are
    always present; [Z], [Xs], [X_priors], [X_bars], [X_bar_priors], [ll]
    and [Ss] exist only once a method has assigned them. *)
Record TEnKF : Type := mk_TEnKF
  { self_N : nat;
    self_dim_x : nat;
    self_dim_z : nat;
    self_seed : option nat;
    self_R : matrix;
    self_Q : matrix;
    self_P : matrix;
    self_x : vec;
    self_Z : option (list vec);
    self_Xs : option ndarray3;
    self_X_priors : option ndarray3;
    self_X_bars : option ndarray3;
    self_X_bar_priors : option ndarray3;
    self_ll : option F;
    self_Ss : option ndarray3 }.

Definition set_Z v (o : TEnKF) : TEnKF :=
  mk_TEnKF (self_N o) (self_dim_x o) (self_dim_z o) (self_seed o) (self_R o)
    (self_Q o) (self_P o) (self_x o) v (self_Xs o) (self_X_priors o)
    (self_X_bars o) (self_X_bar_priors o) (self_ll o) (self_Ss o).
Definition set_Xs v (o : TEnKF) : TEnKF :=
  mk_TEnKF (self_N o) (self_dim_x o) (self_dim_z o) (self_seed o) (self_R o)
    (self_Q o) (self_P o) (self_x o) (self_Z o) v (self_X_priors o)
    (self_X_bars o) (self_X_bar_priors o) (self_ll o) (self_Ss o).
Definition set_X_priors v (o : TEnKF) : TEnKF :=
  mk_TEnKF (self_N o) (self_dim_x o) (self_dim_z o) (self_seed o) (self_R o)
    (self_Q o) (self_P o) (self_x o) (self_Z o) (self_Xs o) v
    (self_X_bars o) (self_X_bar_priors o) (self_ll o) (self_Ss o).
Definition set_X_bars v (o : TEnKF) : TEnKF :=
  mk_TEnKF (self_N o) (self_dim_x o) (self_dim_z o) (self_seed o) (self_R o)
    (self_Q o) (self_P o) (self_x o) (self_Z o) (self_Xs o) (self_X_priors o)
    v (self_X_bar_priors o) (self_ll o) (self_Ss o).
Definition set_X_bar_priors v (o : TEnKF) : TEnKF :=
  mk_TEnKF (self_N o) (self_dim_x o) (self_dim_z o) (self_seed o) (self_R o)
    (self_Q o) (self_P o) (self_x o) (self_Z o) (self_Xs o) (self_X_priors o)
    (self_X_bars o) v (self_ll o) (self_Ss o).
Definition set_ll v (o : TEnKF) : TEnKF :=
  mk_TEnKF (self_N o) (self_dim_x o) (self_dim_z o) (self_seed o) (self_R o)
    (self_Q o) (self_P o) (self_x o) (self_Z o) (self_Xs o) (self_X_priors o)
    (self_X_bars o) (self_X_bar_priors o) v (self_Ss o).
Definition set_Ss v (o : TEnKF) : TEnKF :=
  mk_TEnKF (self_N o) (self_dim_x o) (self_dim_z o) (self_seed o) (self_R o)
    (self_Q o) (self_P o) (self_x o) (self_Z o) (self_Xs o) (self_X_priors o)
    (self_X_bars o) (self_X_bar_priors o) (self_ll o) v.

(** [TEnKF.__init__(N, dim_x, dim_z, fx, hx, rule, seed)]: stores its
    arguments and sets [R], [Q], [P] to identity matrices and [x] to zero.
    No argument is examined. *)
Definition __init__ (N dim_x dim_z : nat) (seed : option nat) : TEnKF :=
  {| self_N := N; self_dim_x := dim_x; self_dim_z := dim_z; self_seed := seed;
     self_R := np_eye dim_z;
     self_Q := np_eye dim_x;
     self_P := np_eye dim_x;
     self_x := np_zeros dim_x;
     self_Z := None; self_Xs := None; self_X_priors := None;
     self_X_bars := None; self_X_bar_priors := None;
     self_ll := None; self_Ss := None |}.

(** [self.multivariate(mean, cov, size)], the sampler of the branch without
    chaospy: [np.random.multivariate_normal], which first checks its
    arguments and then draws [count] (the product of [size]) vectors. *)
Definition multivariate (g : G) (mean : vec) (cov : matrix) (count : nat)
  : result (list vec * G) :=
  if negb (has_shape (length cov) (length cov) cov)
  then Raise (ValueError "cov must be 2 dimensional and square")
  else if negb (length mean =? length cov)%nat
       then Raise (ValueError "mean and cov must have same length")
       else Ok (mvn_draw g mean cov count).

(** A draw of size [(t, n)]: [t] blocks of [n] vectors. *)
Definition reshape2 (t n : nat) (l : list vec) : list (list vec) :=
  map (fun k => take n (drop (k * n) l)) (seq 0 t).

(** [a[nz]] and [a[nz, i]] on such a draw. *)
Definition getitem1 {A : Type} (a : list A) (nz : nat) : result A :=
  match a !! nz with
  | Some v => Ok v
  | None => Raise IndexError
  end.

Definition getitem2 (a : list (list vec)) (nz i : nat) : result vec :=
  row ← getitem1 a nz; getitem1 row i.

(** [self.name[nz, :, :] = M] *)
Definition store_item (name : string) (field : option ndarray3) (nz : nat) (M : matrix)
  : result (option ndarray3) :=
  a ← getattr name field;
  a' ← setitem3 a nz M;
  Ok (Some a').

(** What [batch_filter] returns. *)
Inductive retval : Type :=
| RetLL (ll : F)
| RetArray (a : ndarray3).

Section Loop.
(** The locals of [batch_filter] that the loop body reads. *)
Variables (N dim_z : nat) (R : matrix).
Variables (I1 : vec) (I2 : matrix).
Variables (mus epss : list (list vec)).
Variables (store calc_ll : bool).

(** Lines 88-90: the transition of every column. *)
Definition predict (nz : nat) (X : matrix) : result matrix :=
  for_each
    (fun i X =>
       eps ← getitem2 epss nz i;
       Ok (set_col i (t_func (col i X) eps) X))
    (seq 0 (ncols X)) X.

(** Line 92. *)
Definition observe (X : matrix) : matrix := transpose (o_func (transpose X)).

(** Lines 94-95. *)
Definition record_prior (nz : nat) (X : matrix) (self : TEnKF) : result TEnKF :=
  if store
  then a ← store_item "X_priors" (self_X_priors self) nz X;
       Ok (set_X_priors a self)
  else Ok self.

(** Line 101. *)
Definition innovation_cov (Y : matrix) : matrix := mat_add (np_cov Y) R.

(** Line 102, the right-hand side added to [X]. *)
Definition kalman_update (X Y S_inv mu_nz : matrix) (z : vec) : matrix :=
  let X_bar := matmul X I2 in
  let Y_bar := matmul Y I2 in
  let ZZ := np_outer z I1 in
  matmul (matmul (matmul X_bar (transpose Y_bar)) S_inv)
    (mat_sub (mat_sub ZZ Y) (transpose mu_nz)).

(** Lines 104-107; [X_bar] is the anomaly of the prior ensemble and [X]
    the updated ensemble. *)
Definition record_posterior (nz : nat) (X_bar X : matrix) (self : TEnKF)
  : result TEnKF :=
  if store
  then a ← store_item "X_bar_priors" (self_X_bar_priors self) nz X_bar;
       let self := set_X_bar_priors a self in
       a ← store_item "X_bars" (self_X_bars self) nz (matmul X I2);
       let self := set_X_bars a self in
       a ← store_item "Xs" (self_Xs self) nz X;
       Ok (set_Xs a self)
  else Ok self.

(** Lines 111-113, the term added to [ll]. *)
Definition ll_term (z : vec) (Y S : matrix) : F :=
  let z_mean := np_mean_axis1 Y in
  let y := vsub z z_mean in
  logpdf y (np_zeros dim_z) S.

(** Lines 85-115: one pass of the loop body for the item [(nz, z)] of
    [enumerate(Z)]; the loop state is the ensemble [X], the running
    [ll] and the object. *)
Definition filter_step (item : nat * vec) (st : matrix * F * TEnKF)
  : result (matrix * F * TEnKF) :=
  let '(nz, z) := item in
  let '(X, ll, self) := st in
  X ← predict nz X;
  let Y := observe X in
  self ← record_prior nz X self;
  let X_bar := matmul X I2 in
  let S := innovation_cov Y in
  S_inv ← np_linalg_inv (scale (of_int (Z.of_nat N - 1)) S);
  mu_nz ← getitem1 mus nz;
  let X := mat_add X (kalman_update X Y S_inv mu_nz z) in
  self ← record_posterior nz X_bar X self;
  if calc_ll
  then Ok (X, (ll + ll_term z Y S)%F, self)
  else a ← store_item "Xs" (self_Xs self) nz X;
       Ok (X, ll, set_Xs a self).

(** [for nz, z in enumerate(Z)], from index [k] on. *)
Definition enumerate_from (k : nat) (Z : list vec) : list (nat * vec) :=
  combine (seq k (length Z)) Z.

Definition filter_loop (k : nat) (Z : list vec) (st : matrix * F * TEnKF)
  : result (matrix * F * TEnKF) :=
  for_each filter_step (enumerate_from k Z) st.
End Loop.

(** Line 81: [init_states or self.multivariate(mean=self.x, cov=P, size=N).T] *)
Definition initial_ensemble (self : TEnKF) (g : G) (init_states : option matrix)
  : result (matrix * G) :=
  let sample : result (matrix * G) :=
    '(draws, g) ← multivariate g (self_x self) (self_P self) (self_N self);
    Ok (transpose draws, g) in
  match init_states with
  | None => sample
  | Some A =>
      array_bool A ≫= fun b : bool =>
      if b then Ok (A, g) else sample
  end.

(** Lines 72-73. *)
Definition reseed (self : TEnKF) (seed : option nat) (g : G) : G :=
  if truthy_seed seed || truthy_seed (self_seed self)
  then match or_seed seed (self_seed self) with
       | Some s => np_random_seed s
       | None => g
       end
  else g.

(** Line 62. *)
Definition centering (N : nat) : matrix :=
  let I1 := np_ones N in
  mat_sub (np_eye N) (div_scalar (np_outer I1 I1) (of_nat N)).

(** Lines 64-68. *)
Definition allocate_histories (store : bool) (T : nat) (self : TEnKF) : TEnKF :=
  if store
  then
    let e := np_empty3 T (self_dim_x self) (self_N self) in
    set_X_bar_priors (Some e) (set_X_bars (Some e) (set_X_priors (Some e)
      (set_Xs (Some e) self)))
  else self.

(** What the lines before the loop leave: the two noise draws, the initial
    ensemble, the object and the random state. *)
Record setup : Type := mk_setup
  { su_mus : list (list vec);
    su_epss : list (list vec);
    su_X : matrix;
    su_self : TEnKF;
    su_g : G }.

(** Lines 57-83. *)
Definition filter_setup (self : TEnKF) (g : G) (Z : list vec)
    (init_states : option matrix) (seed : option nat) (store : bool)
  : result setup :=
  let self := set_Z (Some Z) self in
  let N := self_N self in
  let T := length Z in
  let self := allocate_histories store T self in
  let g := reseed self seed g in
  '(mus, g) ← multivariate g (np_zeros (self_dim_z self)) (self_R self) (T * N);
  '(epss, g) ← multivariate g (np_zeros (self_dim_z self)) (self_Q self) (T * N);
  '(X, g) ← initial_ensemble self g init_states;
  let self := set_Xs (Some (np_empty3 T (self_dim_x self) N)) self in
  Ok (mk_setup (reshape2 T N mus) (reshape2 T N epss) X self g).

(** The loop of [batch_filter] on [Z], from the state that
    [filter_setup] left. *)
Definition run_loop (self : TEnKF) (su : setup) (store calc_ll : bool) (Z : list vec)
  : result (matrix * F * TEnKF) :=
  let N := self_N self in
  filter_loop N (self_dim_z self) (self_R self) (np_ones N) (centering N)
    (su_mus su) (su_epss su) store calc_ll 0 Z (su_X su, fzero, su_self su).

(** [TEnKF.batch_filter(Z, init_states, seed, store, calc_ll)]; [g] is the
    state of the global random generator at the call. *)
Definition batch_filter (self : TEnKF) (g : G) (Z : list vec)
    (init_states : option matrix) (seed : option nat) (store calc_ll : bool)
  : result (retval * TEnKF * G) :=
  su ← filter_setup self g Z init_states seed store;
  '(X, ll, self) ← run_loop self su store calc_ll Z;
  if calc_ll
  then Ok (RetLL ll, set_ll (Some ll) self, su_g su)
  else a ← getattr "Xs" (self_Xs self);
       Ok (RetArray (np_rollaxis2 a), self, su_g su).

(** [reversed(range(T - 1))] *)
Definition smoother_indices (T : nat) : list nat := rev (seq 0 (T - 1)).

(** Lines 130-133: the loop body of [rts_smoother] at index [i]; the loop
    state is the running smoothed ensemble (the local [S]) and [Ss]. *)
Definition smoother_step (self : TEnKF) (i : nat) (st : matrix * ndarray3)
  : result (matrix * ndarray3) :=
  let '(S_run, Ss) := st in
  X_bars ← getattr "X_bars" (self_X_bars self);
  X_bar_i ← getitem3 X_bars i;
  X_bar_priors ← getattr "X_bar_priors" (self_X_bar_priors self);
  X_bar_prior ← getitem3 X_bar_priors (i + 1);
  let J := matmul X_bar_i (tinv X_bar_prior) in
  Xs ← getattr "Xs" (self_Xs self);
  X_i ← getitem3 Xs i;
  X_priors ← getattr "X_priors" (self_X_priors self);
  X_prior ← getitem3 X_priors (i + 1);
  let S_run := mat_add X_i (matmul J (mat_sub S_run X_prior)) in
  Ss ← setitem3 Ss i S_run;
  Ok (S_run, Ss).

(** [TEnKF.rts_smoother(means, covs, rcond)]; [Ss] starts as a copy of
    [self.Xs], so writing into it leaves [self.Xs] as it is. *)
Definition rts_smoother (self : TEnKF) (means : option (list vec))
    (covs : option (list matrix)) (rcond : F)
  : result (ndarray3 * TEnKF) :=
  Xs ← getattr "Xs" (self_Xs self);
  S_run ← getitem3_last Xs;
  let Ss := Xs in
  '(S_run, Ss) ← for_each (smoother_step self)
                   (smoother_indices (length (cells Xs))) (S_run, Ss);
  Ok (np_rollaxis2 Ss, set_Ss (Some Ss) self).

End TEnKF.

(** ** Well-formed histories *)

(** A history attribute that exists, with [T] cells of shape [D x N]. *)
Definition hist_ok {F : Type} (T D N : nat) (field : option (ndarray3 F)) : Prop :=
  exists a, field = Some a /\ length (cells a) = T /\ dim1 a = D /\ dim2 a = N
            /\ Forall (fun M => has_shape D N M = true) (cells a).

(** The effect of a pass of the loop body on the object: [Xp] is the
    predicted ensemble, [X'] the updated one, [self] and [self'] the object
    before and after. *)
Record step_effect {F : Type} {SF : Scalar F} (I2 : matrix F) (store calc_ll : bool)
    (nz : nat) (Xp X' : matrix F) (self self' : TEnKF) : Prop :=
  { se_N : self_N self' = self_N self;
    se_dim_x : self_dim_x self' = self_dim_x self;
    se_Xs :
      if store || negb calc_ll
      then exists a, self_Xs self = Some a /\ nz < length (cells a)
                     /\ has_shape (dim1 a) (dim2 a) X' = true
                     /\ self_Xs self'
                        = Some (mk_ndarray3 (dim1 a) (dim2 a) (<[nz := X']> (cells a)))
      else self_Xs self' = self_Xs self;
    se_X_priors :
      if store
      then exists a, self_X_priors self = Some a /\ nz < length (cells a)
                     /\ has_shape (dim1 a) (dim2 a) Xp = true
                     /\ self_X_priors self'
                        = Some (mk_ndarray3 (dim1 a) (dim2 a) (<[nz := Xp]> (cells a)))
      else self_X_priors self' = self_X_priors self;
    se_X_bars :
      if store
      then exists a, self_X_bars self = Some a /\ nz < length (cells a)
                     /\ has_shape (dim1 a) (dim2 a) (matmul X' I2) = true
                     /\ self_X_bars self'
                        = Some (mk_ndarray3 (dim1 a) (dim2 a)
                                  (<[nz := matmul X' I2]> (cells a)))
      else self_X_bars self' = self_X_bars self;
    se_X_bar_priors :
      if store
      then exists a, self_X_bar_priors self = Some a /\ nz < length (cells a)
                     /\ has_shape (dim1 a) (dim2 a) (matmul Xp I2) = true
                     /\ self_X_bar_priors self'
                        = Some (mk_ndarray3 (dim1 a) (dim2 a)
                                  (<[nz := matmul Xp I2]> (cells a)))
      else self_X_bar_priors self' = self_X_bar_priors self }.

(** The smoother's recurrence at step [i], from the histories on the object:
    [S_i] is [posterior_i + J (S_next - prior_{i+1})], where [J] is the
    posterior anomaly at [i] times the generalised inverse of the prior
    anomaly at [i + 1]. *)
Definition smoother_recurrence {F : Type} {SF : Scalar F} {CF : Collaborators F}
    (self : TEnKF) (i : nat) (S_next S_i : matrix F) : Prop :=
  exists (X_bars X_bar_priors Xs X_priors : ndarray3 F)
         (post_anomaly prior_anomaly posterior prior : matrix F),
    self_X_bars self = Some X_bars /\ cells X_bars !! i = Some post_anomaly
    /\ self_X_bar_priors self = Some X_bar_priors
    /\ cells X_bar_priors !! (i + 1) = Some prior_anomaly
    /\ self_Xs self = Some Xs /\ cells Xs !! i = Some posterior
    /\ self_X_priors self = Some X_priors /\ cells X_priors !! (i + 1) = Some prior
    /\ S_i = mat_add posterior
               (matmul (matmul post_anomaly (tinv prior_anomaly))
                  (mat_sub S_next prior)).


(** ** The update as the specification words it

    These definitions follow the text of the specification (section 4.1,
    steps 3, 4 and 6), not the code: the anomalies are obtained by
    subtracting the ensemble mean, the sample covariance is normalised by
    [N - 1], and the update is written member by member. *)

Section SpecFormulas.
Context {F : Type} {SF : Scalar F}.

(** Step 3: subtract the ensemble mean from every member. *)
Definition spec_center (M : matrix F) : matrix F :=
  map (fun row =>
         let m := (vsum row / of_nat (length row))%F in
         map (fun v => (v - m)%F) row) M.

(** Step 4: the sample covariance of [Y] with [N - 1] normalisation. *)
Definition spec_sample_cov (N : nat) (Y : matrix F) : matrix F :=
  let Yc := spec_center Y in
  map (fun ra => map (fun rb => (dot ra rb / of_nat (N - 1))%F) Yc) Yc.

Definition spec_innovation_cov (N : nat) (Y R : matrix F) : matrix F :=
  mat_add (spec_sample_cov N Y) R.

(** Step 6: the gain, given the inverse [S_inv] of [(N - 1) S]. *)
Definition spec_gain (X Y S_inv : matrix F) : matrix F :=
  matmul (matmul (spec_center X) (transpose (spec_center Y))) S_inv.

(** Step 6: member [x_i] plus the gain applied to [z - y_i - mu_i]. *)
Definition spec_member_update (K : matrix F) (x_i y_i mu_i z : vec F) : vec F :=
  vadd x_i (mulmv K (vsub (vsub z y_i) mu_i)).

End SpecFormulas.

(** ** Reference collaborators

    Collaborators with the interface of the real ones, over any scalars, used
    to run the model on concrete inputs.  [numpy.linalg.inv] is Gauss-Jordan
    elimination, which raises LinAlgError when a column has no non-zero pivot
    (LAPACK tests the pivot with [!= 0], as [truthy] does); the transition is
    [x' = 0.9 x + eps], observed directly.  The sampler and the log-density
    are stand-ins: the k-th vector drawn is the mean shifted by a term of a
    fixed sequence. *)

Section Reference.
Context {F : Type} {SF : Scalar F}.

(** The first row of [rows] with a non-zero entry in column [k], and the
    other rows. *)
Fixpoint find_pivot (k : nat) (rows : matrix F) : option (vec F * matrix F) :=
  match rows with
  | [] => None
  | r :: rs =>
      if truthy (nth k r fzero)
      then Some (r, rs)
      else match find_pivot k rs with
           | Some (p, others) => Some (p, r :: others)
           | None => None
           end
  end.

Definition eliminate (k : nat) (p r : vec F) : vec F :=
  zip_with (fun a b => a - nth k r fzero * b)%F r p.

Fixpoint gauss_jordan (ks : list nat) (done todo : matrix F) : option (matrix F) :=
  match ks with
  | [] => Some done
  | k :: ks' =>
      match find_pivot k todo with
      | None => None
      | Some (p, others) =>
          let p' := map (fun a => a / nth k p fzero)%F p in
          gauss_jordan ks' (map (eliminate k p') done ++ [p'])
            (map (eliminate k p') others)
      end
  end.

Definition ref_inv (A : matrix F) : result (matrix F) :=
  let n := length A in
  if negb (has_shape n n A)
  then Raise LinAlgError
  else match gauss_jordan (seq 0 n) [] (zip_with app A (np_eye n)) with
       | Some rows => Ok (map (drop n) rows)
       | None => Raise LinAlgError
       end.

(** The generalised inverse of a matrix of full row rank,
    [A.T @ inv(A @ A.T)]; the zero matrix of that shape otherwise. *)
Definition ref_tinv (A : matrix F) : matrix F :=
  match ref_inv (matmul A (transpose A)) with
  | Ok B => matmul (transpose A) B
  | Raise _ => map (fun _ => np_zeros (length A)) (seq 0 (ncols A))
  end.

Definition ref_noise (k : nat) : F :=
  match k mod 3 with
  | 0 => (fone / of_nat 2)%F
  | 1 => (fzero - fone / of_nat 4)%F
  | _ => (fone / of_nat 8)%F
  end.

Definition ref_draw (g : nat) (mean : vec F) (cov : matrix F) (count : nat)
  : list (vec F) * nat :=
  (map (fun k => map (fun m => m + ref_noise (g + k))%F mean) (seq 0 count),
   g + count).

Definition ref_t_func (x eps : vec F) : vec F :=
  zip_with (fun a e => of_nat 9 / of_nat 10 * a + e)%F x eps.

#[export] Instance ref_collaborators : Collaborators F :=
  {| t_func := ref_t_func;
     o_func := fun X => X;
     np_linalg_inv := ref_inv;
     tinv := ref_tinv;
     logpdf := fun y mean cov => (fzero - dot (vsub y mean) (vsub y mean))%F;
     G := nat;
     np_random_seed := fun s => s;
     mvn_draw := ref_draw |}.

End Reference.

(** ** Concrete scalars *)

(** Exact rational arithmetic, every result in lowest terms. *)
#[export] Instance Q_scalar : Scalar Q :=
  {| fzero := 0%Q;
     fone := 1%Q;
     fadd := fun a b => Qred (a + b)%Q;
     fsub := fun a b => Qred (a - b)%Q;
     fmul := fun a b => Qred (a * b)%Q;
     fdiv := fun a b => Qred (a / b)%Q;
     truthy := fun a => negb (Qeq_bool a 0) |}.

(** Canonical rationals, a field for Leibniz equality. *)
#[export] Instance Qc_scalar : Scalar Qc :=
  {| fzero := Q2Qc 0;
     fone := Q2Qc 1;
     fadd := Qcplus;
     fsub := Qcminus;
     fmul := Qcmult;
     fdiv := Qcdiv;
     truthy := fun a => negb (Qeq_bool (this a) 0) |}.

(** Rationals extended with the two infinities and not-a-number, with the
    rules of IEEE arithmetic for them (no rounding and no signed zero): the
    values that numpy's total float operations produce where a rational
    operation is undefined. *)
Inductive xfloat : Type :=
| Fin (q : Q)
| Inf (negative : bool)
| NaN.

Definition Qneg (q : Q) : bool :=
  match (q ?= 0)%Q with Lt => true | _ => false end.

Definition xneg (a : xfloat) : xfloat :=
  match a with
  | Fin q => Fin (Qred (- q))
  | Inf s => Inf (negb s)
  | NaN => NaN
  end.

Definition xadd (a b : xfloat) : xfloat :=
  match a, b with
  | NaN, _ | _, NaN => NaN
  | Fin p, Fin q => Fin (Qred (p + q))
  | Inf s, Fin _ | Fin _, Inf s => Inf s
  | Inf s, Inf t => if Bool.eqb s t then Inf s else NaN
  end.

Definition xmul (a b : xfloat) : xfloat :=
  match a, b with
  | NaN, _ | _, NaN => NaN
  | Fin p, Fin q => Fin (Qred (p * q))
  | Inf s, Fin q | Fin q, Inf s => if Qeq_bool q 0 then NaN else Inf (xorb s (Qneg q))
  | Inf s, Inf t => Inf (xorb s t)
  end.

Definition xdiv (a b : xfloat) : xfloat :=
  match a, b with
  | NaN, _ | _, NaN => NaN
  | Fin p, Fin q =>
      if Qeq_bool q 0
      then if Qeq_bool p 0 then NaN else Inf (Qneg p)
      else Fin (Qred (p / q))
  | Fin _, Inf _ => Fin 0
  | Inf s, Fin q => Inf (xorb s (Qneg q))
  | Inf _, Inf _ => NaN
  end.

#[export] Instance xfloat_scalar : Scalar xfloat :=
  {| fzero := Fin 0;
     fone := Fin 1;
     fadd := xadd;
     fsub := fun a b => xadd a (xneg b);
     fmul := xmul;
     fdiv := xdiv;
     truthy := fun a => match a with Fin q => negb (Qeq_bool q 0) | _ => true end |}.

(** ** Predicates of the further properties *)

(** The attributes that [__init__] sets, and [Ss], are the same on two
    objects. *)
Definition same_config {F : Type} (o o' : TEnKF (F := F)) : Prop :=
  self_N o' = self_N o /\ self_dim_x o' = self_dim_x o /\ self_dim_z o' = self_dim_z o
  /\ self_seed o' = self_seed o /\ self_R o' = self_R o /\ self_Q o' = self_Q o
  /\ self_P o' = self_P o /\ self_x o' = self_x o /\ self_Ss o' = self_Ss o.

(** Every row of [M] sums to zero. *)
Definition rows_sum_to_zero {F : Type} {SF : Scalar F} (M : matrix F) : Prop :=
  Forall (fun row => vsum row = fzero) M.

(** Every row of [M] repeats one value: the members of the ensemble [M] are
    equal. *)
Definition collapsed {F : Type} (M : matrix F) : Prop :=
  Forall (fun row => exists c, row = repeat c (length row)) M.

(** ** Scenarios

    Concrete objects and inputs on which the model is run. *)


(** A state of the reference random generator. *)
Definition rng {F : Type} {SF : Scalar F} (k : nat) : @G F ref_collaborators := k.

(** [TEnKF(N=2, dim_x=1, dim_z=1)] over the rationals. *)
Definition enkf_2_1_1 : TEnKF (F := Q) := __init__ 2 1 1 None.



(** One pass of the loop over the canonical rationals: two members, one
    state, one observable. *)
Definition pass_mus : list (list (vec Qc)) := [[[Q2Qc (1 # 2)]; [Q2Qc (- (1 # 4))]]].
Definition pass_epss : list (list (vec Qc)) := [[[Q2Qc (1 # 8)]; [Q2Qc (1 # 2)]]].
Definition pass_X : matrix Qc := [[Q2Qc 0; Q2Qc 1]].
Definition pass_result : result (matrix Qc * Qc * TEnKF) :=
  filter_step 2 1 [[Q2Qc 1]] (np_ones 2) (centering 2) pass_mus pass_epss false true
    (0, [Q2Qc 1]) (pass_X, Q2Qc 0, __init__ 2 1 1 None).

(** An object with a stored history of a single time step. *)
Definition enkf_one_step : TEnKF (F := Q) :=
  set_Xs (Some (mk_ndarray3 1 2 [[[1%Q; 2%Q]]])) (__init__ 2 1 1 None).

(** [TEnKF(N=2, dim_x=1, dim_z=1)] over the canonical rationals. *)
Definition enkf_Qc : TEnKF (F := Qc) := __init__ 2 1 1 None.

(** * Properties *)

(** ** The result monad and loops *)

Lemma bind_Ok_inv {A B : Type} (m : result A) (f : A -> result B) (b : B) :
  m ≫= f = Ok b -> exists a, m = Ok a /\ f a = Ok b.
Proof.
  destruct m as [a|e]; simpl; intros H; [eauto | discriminate].
Qed.


Ltac inv_bind H :=
  let a := fresh "a" in
  let Ha := fresh "H" a in
  apply bind_Ok_inv in H; destruct H as (a & Ha & H).

(** ** Shapes of arrays *)

Lemma nth_map_seq {A : Type} (f : nat -> A) (n i : nat) (d : A) :
  i < n -> nth i (map f (seq 0 n)) d = f i.
Proof.
  intros Hi. rewrite (nth_indep _ _ (f 0)) by (rewrite length_map, length_seq; lia).
  rewrite map_nth, seq_nth by lia. reflexivity.
Qed.

Lemma nth_map_default {A B : Type} (f : A -> B) (l : list A) (d : A) (d' : B) (i : nat) :
  f d = d' -> nth i (map f l) d' = f (nth i l d).
Proof. intros <-. apply map_nth. Qed.

Section ShapeFacts.
Context {F : Type} {SF : Scalar F}.

Lemma has_shape_spec (r c : nat) (M : matrix F) :
  has_shape r c M = true <-> length M = r /\ Forall (fun row => length row = c) M.
Proof.
  unfold has_shape. rewrite andb_true_iff, Nat.eqb_eq, forallb_forall, List.Forall_forall.
  split; intros [H1 H2]; split; auto; intros x Hx.
  - apply Nat.eqb_eq; auto.
  - apply Nat.eqb_eq; auto.
Qed.

Lemma has_shape_eye (n : nat) : has_shape n n (np_eye (F:=F) n) = true.
Proof.
  apply has_shape_spec. unfold np_eye. rewrite length_map, length_seq. split; [reflexivity|].
  apply List.Forall_forall. intros row Hrow. apply in_map_iff in Hrow as (i & <- & _).
  now rewrite length_map, length_seq.
Qed.

Lemma length_np_eye (n : nat) : length (np_eye (F:=F) n) = n.
Proof. unfold np_eye. now rewrite length_map, length_seq. Qed.

Lemma length_np_zeros (n : nat) : length (np_zeros (F:=F) n) = n.
Proof. apply repeat_length. Qed.

Lemma has_shape_zero_rows (c : nat) (M : matrix F) :
  has_shape 0 c M = true -> M = [].
Proof. intros H. apply has_shape_spec in H as [H _]. now destruct M. Qed.

Lemma ncols_has_shape (r c : nat) (M : matrix F) :
  has_shape r c M = true -> 0 < r -> ncols M = c.
Proof.
  intros H Hr. apply has_shape_spec in H as [H1 H2]. unfold ncols.
  destruct M as [|row M]; simpl in *; [lia|]. now inversion H2.
Qed.

Lemma has_shape_zip_with (f : F -> F -> F) (r c : nat) (A B : matrix F) :
  has_shape r c A = true -> has_shape r c B = true ->
  has_shape r c (zip_with (zip_with f) A B) = true.
Proof.
  rewrite !has_shape_spec. intros [HA1 HA2] [HB1 HB2]. split.
  - rewrite length_zip_with. lia.
  - subst r. revert B HB1 HB2. induction HA2 as [|ra A Hra HA IH]; intros B HB1 HB2.
    + constructor.
    + destruct B as [|rb B]; [discriminate|]. inversion HB2; subst. simpl.
      constructor; [rewrite length_zip_with; lia|]. apply IH; auto.
Qed.

Lemma has_shape_mat_add (r c : nat) (A B : matrix F) :
  has_shape r c A = true -> has_shape r c B = true ->
  has_shape r c (mat_add A B) = true.
Proof. apply (has_shape_zip_with fadd). Qed.

Lemma has_shape_mat_sub (r c : nat) (A B : matrix F) :
  has_shape r c A = true -> has_shape r c B = true ->
  has_shape r c (mat_sub A B) = true.
Proof. apply (has_shape_zip_with fsub). Qed.

Lemma has_shape_matmul (A B : matrix F) :
  has_shape (length A) (ncols B) (matmul A B) = true.
Proof.
  apply has_shape_spec. unfold matmul. rewrite length_map. split; [reflexivity|].
  apply List.Forall_forall. intros row Hrow. apply in_map_iff in Hrow as (ra & <- & _).
  now rewrite length_map, length_seq.
Qed.

(** The shape of what a pass of the smoother writes. *)
Lemma has_shape_smoothed (r c : nat) (X_i J S_run X_prior : matrix F) :
  has_shape r c X_i = true -> has_shape r c S_run = true ->
  has_shape r c X_prior = true -> length J = r ->
  has_shape r c (mat_add X_i (matmul J (mat_sub S_run X_prior))) = true.
Proof.
  intros HX HS HP HJ. destruct r as [|r].
  - apply has_shape_zero_rows in HX as ->. reflexivity.
  - apply has_shape_mat_add; [assumption|].
    pose proof (has_shape_mat_sub _ _ _ _ HS HP) as Hsub.
    pose proof (has_shape_matmul J (mat_sub S_run X_prior)) as Hm.
    rewrite HJ in Hm.
    now rewrite (ncols_has_shape _ _ _ Hsub) in Hm by lia.
Qed.

End ShapeFacts.

(** ** The filter and the smoother *)

Section FilterFacts.
Context {F : Type} {SF : Scalar F} {CF : Collaborators F}.

Lemma multivariate_eye (g : G) (n count : nat) :
  multivariate g (np_zeros n) (np_eye n) count = Ok (mvn_draw g (np_zeros n) (np_eye n) count).
Proof.
  unfold multivariate.
  rewrite length_np_eye, has_shape_eye, length_np_zeros, Nat.eqb_refl. reflexivity.
Qed.

Lemma multivariate_length_mismatch (g : G) (m n count : nat) :
  m <> n ->
  multivariate g (np_zeros m) (np_eye n) count
  = Raise (ValueError "mean and cov must have same length").
Proof.
  intros Hmn. unfold multivariate.
  rewrite length_np_eye, has_shape_eye, length_np_zeros. simpl.
  destruct (Nat.eqb_spec m n); [contradiction | reflexivity].
Qed.

Lemma array_bool_ambiguous (A : matrix F) :
  2 <= array_size A ->
  array_bool A
  = Raise (ValueError
             "The truth value of an array with more than one element is ambiguous").
Proof.
  unfold array_size, array_bool. destruct (concat A) as [|a [|b l]]; simpl; intros H;
    [lia | lia | reflexivity].
Qed.

(** C10. [rts_smoother] accepts [means], [covs] and [rcond] and never reads
    them: on the same object, any two choices of the three arguments give
    the same result (the same smoothed history, the same updated object, or
    the same exception). *)
Theorem rts_smoother_ignores_means_covs_rcond
    (self : TEnKF) (means1 means2 : option (list (vec F)))
    (covs1 covs2 : option (list (matrix F))) (rcond1 rcond2 : F) :
  rts_smoother self means1 covs1 rcond1 = rts_smoother self means2 covs2 rcond2.
Proof. reflexivity. Qed.

(** C5 (the defect).  Line 80 builds the mean of the process-noise
    distribution with [np.zeros(self._dim_z)] while its covariance [Q] is
    [dim_x x dim_x]: on an object as constructed, whenever the state and
    observation dimensions differ the sampler rejects the call and
    [batch_filter] raises before the first filtering step, whatever the
    other arguments are. *)
Theorem process_noise_mean_has_observation_dimension
    (N dim_x dim_z : nat) (seed0 : option nat) (g : G) (Z : list (vec F))
    (init_states : option (matrix F)) (seed : option nat) (store calc_ll : bool) :
  dim_x <> dim_z ->
  batch_filter (__init__ N dim_x dim_z seed0) g Z init_states seed store calc_ll
  = Raise (ValueError "mean and cov must have same length").
Proof.
  intros Hd. unfold batch_filter, filter_setup.
  destruct store; simpl; rewrite multivariate_eye; simpl;
    destruct (mvn_draw _ _ _ _) as [mus g1]; simpl;
    rewrite multivariate_length_mismatch by congruence; reflexivity.
Qed.

(** C4 (the defect).  Line 81 reads [init_states or ...], which asks numpy
    for the truth value of the array: on an object as constructed with
    equal state and observation dimensions, an initial ensemble with more
    than one element makes [batch_filter] raise ValueError instead of
    starting the loop from it. *)
Theorem explicit_initial_ensemble_raises
    (N d : nat) (seed0 : option nat) (g : G) (Z : list (vec F))
    (A : matrix F) (seed : option nat) (store calc_ll : bool) :
  2 <= array_size A ->
  batch_filter (__init__ N d d seed0) g Z (Some A) seed store calc_ll
  = Raise (ValueError
             "The truth value of an array with more than one element is ambiguous").
Proof.
  intros HA. unfold batch_filter, filter_setup.
  destruct store; simpl; rewrite !multivariate_eye; simpl;
    destruct (mvn_draw _ _ _ _) as [mus g1]; simpl;
    rewrite multivariate_eye; simpl;
    destruct (mvn_draw _ _ _ _) as [epss g2]; simpl;
    unfold initial_ensemble; rewrite array_bool_ambiguous by assumption; reflexivity.
Qed.

End FilterFacts.

(** ** Histories *)

Section HistoryFacts.
Context {F : Type} {SF : Scalar F}.

Lemma np_empty3_ok (T D N : nat) : hist_ok T D N (Some (np_empty3 T D N)).
Proof.
  exists (np_empty3 T D N); simpl. rewrite repeat_length. repeat split; try reflexivity.
  apply List.Forall_forall. intros M HM. apply repeat_spec in HM as ->.
  apply has_shape_spec. rewrite repeat_length. split; [reflexivity|].
  apply List.Forall_forall. intros row Hrow. apply repeat_spec in Hrow as ->.
  apply repeat_length.
Qed.

Lemma setitem3_inv (a a' : ndarray3 F) (i : nat) (M : matrix F) :
  setitem3 a i M = Ok a' ->
  i < length (cells a) /\ has_shape (dim1 a) (dim2 a) M = true
  /\ a' = mk_ndarray3 (dim1 a) (dim2 a) (<[i := M]> (cells a)).
Proof.
  unfold setitem3. destruct (Nat.ltb_spec i (length (cells a))); simpl; [|discriminate].
  destruct (has_shape _ _ M); simpl; [|discriminate].
  intros [= <-]. auto.
Qed.

Lemma store_item_inv (name : string) (field f' : option (ndarray3 F)) (nz : nat)
    (M : matrix F) :
  store_item name field nz M = Ok f' ->
  exists a, field = Some a /\ nz < length (cells a)
            /\ has_shape (dim1 a) (dim2 a) M = true
            /\ f' = Some (mk_ndarray3 (dim1 a) (dim2 a) (<[nz := M]> (cells a))).
Proof.
  unfold store_item. destruct field as [a|]; simpl; [|discriminate].
  destruct (setitem3 a nz M) as [a'|e] eqn:E; simpl; [|discriminate].
  intros [= <-]. apply setitem3_inv in E as (? & ? & ->). eauto.
Qed.

Lemma store_item_ok (name : string) (field f' : option (ndarray3 F)) (nz : nat)
    (M : matrix F) (T D N : nat) :
  store_item name field nz M = Ok f' ->
  hist_ok T D N field -> hist_ok T D N f'.
Proof.
  intros H (a & -> & HT & HD & HN & Hall).
  apply store_item_inv in H as (a0 & [= <-] & Hlt & Hsh & ->).
  eexists; split; [reflexivity|]; simpl. rewrite length_insert.
  repeat split; auto. apply Forall_insert; [assumption|]. now rewrite <- HD, <- HN.
Qed.

Lemma hist_insert_ok (a : ndarray3 F) (nz : nat) (M : matrix F) (T D N : nat) :
  hist_ok T D N (Some a) ->
  has_shape (dim1 a) (dim2 a) M = true ->
  hist_ok T D N (Some (mk_ndarray3 (dim1 a) (dim2 a) (<[nz := M]> (cells a)))).
Proof.
  intros (a0 & [= <-] & HT & HD & HN & Hall) Hsh.
  eexists; split; [reflexivity|]; simpl. rewrite length_insert.
  repeat split; auto. apply Forall_insert; [assumption|]. now rewrite <- HD, <- HN.
Qed.

Lemma store_item_total (name : string) (field : option (ndarray3 F)) (nz : nat)
    (M : matrix F) (T D N : nat) :
  hist_ok T D N field -> nz < T -> has_shape D N M = true ->
  exists f', store_item name field nz M = Ok f'.
Proof.
  intros (a & -> & HT & HD & HN & Hall) Hlt Hsh.
  unfold store_item, setitem3; simpl.
  destruct (Nat.ltb_spec nz (length (cells a))); [|lia]. simpl.
  rewrite HD, HN, Hsh. simpl. eauto.
Qed.

End HistoryFacts.

(** ** The loop of [batch_filter] *)

Section LoopFacts.
Context {F : Type} {SF : Scalar F} {CF : Collaborators F}.
Variables (N dim_z : nat) (R : matrix F).
Variables (I1 : vec F) (I2 : matrix F).
Variables (mus epss : list (list (vec F))).
Variables (store calc_ll : bool).

#[local] Abbreviation step := (filter_step N dim_z R I1 I2 mus epss store calc_ll).
#[local] Abbreviation loop := (filter_loop N dim_z R I1 I2 mus epss store calc_ll).

(** What a pass of the loop body that does not raise has computed. *)
Lemma filter_step_inv (nz : nat) (z : vec F) (X X' : matrix F) (ll ll' : F)
    (self self' : TEnKF) :
  step (nz, z) (X, ll, self) = Ok (X', ll', self') ->
  exists Xp self1 S_inv mu self2,
    predict epss nz X = Ok Xp
    /\ record_prior store nz Xp self = Ok self1
    /\ np_linalg_inv (scale (of_int (Z.of_nat N - 1)) (innovation_cov R (observe Xp)))
       = Ok S_inv
    /\ getitem1 mus nz = Ok mu
    /\ X' = mat_add Xp (kalman_update I1 I2 Xp (observe Xp) S_inv mu z)
    /\ record_posterior I2 store nz (matmul Xp I2) X' self1 = Ok self2
    /\ (if calc_ll
        then ll' = (ll + ll_term dim_z z (observe Xp) (innovation_cov R (observe Xp)))%F
             /\ self' = self2
        else ll' = ll
             /\ exists a, store_item "Xs" (self_Xs self2) nz X' = Ok a
                          /\ self' = set_Xs a self2).
Proof.
  unfold filter_step. intros H.
  inv_bind H. rename a into Xp.
  inv_bind H. rename a into self1.
  inv_bind H. rename a into S_inv.
  inv_bind H. rename a into mu.
  inv_bind H. rename a into self2.
  exists Xp, self1, S_inv, mu, self2. repeat (split; [assumption|]).
  destruct calc_ll.
  - injection H as <- <- <-. auto.
  - inv_bind H. injection H as <- <- <-. eauto 10.
Qed.

Lemma record_prior_inv (nz : nat) (X : matrix F) (self self1 : TEnKF) :
  record_prior store nz X self = Ok self1 ->
  if store
  then exists a, store_item "X_priors" (self_X_priors self) nz X = Ok a
                 /\ self1 = set_X_priors a self
  else self1 = self.
Proof.
  unfold record_prior. destruct store.
  - intros H. inv_bind H. injection H as <-. eauto.
  - now intros [= <-].
Qed.

Lemma record_posterior_inv (nz : nat) (X_bar X : matrix F) (self self2 : TEnKF) :
  record_posterior I2 store nz X_bar X self = Ok self2 ->
  if store
  then exists a b c,
      store_item "X_bar_priors" (self_X_bar_priors self) nz X_bar = Ok a
      /\ store_item "X_bars" (self_X_bars self) nz (matmul X I2) = Ok b
      /\ store_item "Xs" (self_Xs self) nz X = Ok c
      /\ self2 = set_Xs c (set_X_bars b (set_X_bar_priors a self))
  else self2 = self.
Proof.
  unfold record_posterior. destruct store.
  - intros H. inv_bind H. simpl in H. inv_bind H. simpl in H. inv_bind H.
    injection H as <-. eauto 10.
  - now intros [= <-].
Qed.

Lemma filter_step_effect (nz : nat) (z : vec F) (X X' : matrix F) (ll ll' : F)
    (self self' : TEnKF) :
  step (nz, z) (X, ll, self) = Ok (X', ll', self') ->
  exists Xp, predict epss nz X = Ok Xp /\ step_effect I2 store calc_ll nz Xp X' self self'.
Proof.
  intros H. apply filter_step_inv in H
    as (Xp & self1 & S_inv & mu & self2 & Hp & H1 & _ & _ & HX & H2 & H3).
  exists Xp. split; [assumption|]. clear HX Hp.
  apply record_prior_inv in H1. apply record_posterior_inv in H2.
  destruct store; simpl.
  - destruct H1 as (a1 & Ha1 & ->). destruct H2 as (a & b & c & Ha & Hb & Hc & ->).
    simpl in *.
    apply store_item_inv in Ha1 as (p & Hp & Hp1 & Hp2 & ->).
    apply store_item_inv in Ha as (q & Hq & Hq1 & Hq2 & ->).
    apply store_item_inv in Hb as (r & Hr & Hr1 & Hr2 & ->).
    apply store_item_inv in Hc as (s & Hs & Hs1 & Hs2 & ->).
    destruct calc_ll.
    + destruct H3 as (_ & ->). split; simpl; eauto 10.
    + destruct H3 as (_ & d & Hd & ->). simpl in Hd.
      apply store_item_inv in Hd as (s' & [= <-] & Hd1 & Hd2 & ->). simpl.
      split; simpl; eauto 10.
      exists s. rewrite list_insert_insert_eq. auto.
  - subst self1 self2. destruct calc_ll.
    + destruct H3 as (_ & ->). split; simpl; auto.
    + destruct H3 as (_ & d & Hd & ->).
      apply store_item_inv in Hd as (s' & Hs & Hd1 & Hd2 & ->).
      split; simpl; eauto 10.
Qed.



Lemma filter_loop_nil (k : nat) (st : matrix F * F * TEnKF) : loop k [] st = Ok st.
Proof. reflexivity. Qed.

Lemma filter_loop_cons (k : nat) (z : vec F) (Z : list (vec F))
    (st : matrix F * F * TEnKF) :
  loop k (z :: Z) st = step (k, z) st ≫= loop (S k) Z.
Proof. reflexivity. Qed.


Lemma step_effect_hist_ok (nz : nat) (Xp X' : matrix F) (self self' : TEnKF)
    (T D n : nat) :
  step_effect I2 store calc_ll nz Xp X' self self' ->
  (hist_ok T D n (self_Xs self) -> hist_ok T D n (self_Xs self'))
  /\ (hist_ok T D n (self_X_priors self) -> hist_ok T D n (self_X_priors self'))
  /\ (hist_ok T D n (self_X_bars self) -> hist_ok T D n (self_X_bars self'))
  /\ (hist_ok T D n (self_X_bar_priors self) -> hist_ok T D n (self_X_bar_priors self')).
Proof.
  intros [_ _ H1 H2 H3 H4].
  repeat split; intros Hok.
  - destruct (store || negb calc_ll); [|now rewrite H1].
    destruct H1 as (a & Ha & Hlt & Hsh & ->). now apply hist_insert_ok; [rewrite <- Ha|].
  - destruct store; [|now rewrite H2].
    destruct H2 as (a & Ha & Hlt & Hsh & ->). now apply hist_insert_ok; [rewrite <- Ha|].
  - destruct store; [|now rewrite H3].
    destruct H3 as (a & Ha & Hlt & Hsh & ->). now apply hist_insert_ok; [rewrite <- Ha|].
  - destruct store; [|now rewrite H4].
    destruct H4 as (a & Ha & Hlt & Hsh & ->). now apply hist_insert_ok; [rewrite <- Ha|].
Qed.

(** The loop keeps [N] and [dim_x], and every history that is well formed
    stays so. *)
Lemma filter_loop_hist_ok (Z : list (vec F)) :
  forall (k : nat) (X X' : matrix F) (ll ll' : F) (self self' : TEnKF) (T D n : nat),
    loop k Z (X, ll, self) = Ok (X', ll', self') ->
    self_N self' = self_N self
    /\ self_dim_x self' = self_dim_x self
    /\ (hist_ok T D n (self_Xs self) -> hist_ok T D n (self_Xs self'))
    /\ (hist_ok T D n (self_X_priors self) -> hist_ok T D n (self_X_priors self'))
    /\ (hist_ok T D n (self_X_bars self) -> hist_ok T D n (self_X_bars self'))
    /\ (hist_ok T D n (self_X_bar_priors self)
        -> hist_ok T D n (self_X_bar_priors self')).
Proof.
  induction Z as [|z Z IH]; intros k X X' ll ll' self self' T D n H.
  - rewrite filter_loop_nil in H. injection H as <- <- <-. tauto.
  - rewrite filter_loop_cons in H. inv_bind H. destruct a as [[X1 ll1] self1].
    apply filter_step_effect in Ha as (Xp & _ & He).
    apply (IH _ _ _ _ _ _ _ T D n) in H as (HN & HD & K1 & K2 & K3 & K4).
    pose proof (step_effect_hist_ok _ _ _ _ _ T D n He) as (J1 & J2 & J3 & J4).
    destruct He as [EN ED _ _ _ _].
    repeat split; try congruence; auto.
Qed.

(** Without [store], the loop leaves the three attributes that only a
    stored run creates as they were. *)
Lemma filter_loop_nostore (Z : list (vec F)) :
  forall (k : nat) (X X' : matrix F) (ll ll' : F) (self self' : TEnKF),
    store = false ->
    loop k Z (X, ll, self) = Ok (X', ll', self') ->
    self_X_priors self' = self_X_priors self
    /\ self_X_bars self' = self_X_bars self
    /\ self_X_bar_priors self' = self_X_bar_priors self.
Proof.
  intros k X X' ll ll' self self' Hst. revert k X X' ll ll' self self'.
  induction Z as [|z Z IH]; intros k X X' ll ll' self self' H.
  - rewrite filter_loop_nil in H. injection H as <- <- <-. tauto.
  - rewrite filter_loop_cons in H. inv_bind H. destruct a as [[X1 ll1] self1].
    apply filter_step_effect in Ha as (Xp & _ & [_ _ _ E2 E3 E4]).
    rewrite Hst in E2, E3, E4.
    apply IH in H as (K2 & K3 & K4). repeat split; congruence.
Qed.

(** When the loop writes [self.Xs] (that is, unless [calc_ll] is set and
    [store] is not), entry [k + j] of it after the loop is the ensemble as it
    was after the pass for item [j]; the entries before [k] are untouched. *)
Lemma filter_loop_Xs_entries (Z : list (vec F)) :
  forall (k : nat) (X X' : matrix F) (ll ll' : F) (self self' : TEnKF) (a : ndarray3 F),
    loop k Z (X, ll, self) = Ok (X', ll', self') ->
    store || negb calc_ll = true ->
    self_Xs self = Some a ->
    exists a',
      self_Xs self' = Some a'
      /\ (forall j, j < k -> cells a' !! j = cells a !! j)
      /\ (forall j, j < length Z ->
            exists Xj llj selfj,
              loop k (take (S j) Z) (X, ll, self) = Ok (Xj, llj, selfj)
              /\ cells a' !! (k + j) = Some Xj).
Proof.
  induction Z as [|z Z IH]; intros k X X' ll ll' self self' a H Hw Ha.
  - rewrite filter_loop_nil in H. injection H as <- <- <-.
    exists a. repeat split; auto. simpl; intros j Hj; lia.
  - rewrite filter_loop_cons in H. inv_bind H. destruct a0 as [[X1 ll1] self1].
    pose proof Ha0 as Hstep.
    apply filter_step_effect in Ha0 as (Xp & _ & [_ _ E1 _ _ _]).
    rewrite Hw in E1. destruct E1 as (a0 & Ha0 & Hlt & Hsh & E1).
    rewrite Ha in Ha0. injection Ha0 as <-.
    destruct (IH _ _ _ _ _ _ _ _ H Hw E1) as (a' & Ha' & Hbefore & Hin).
    exists a'. split; [assumption|]. simpl in Hbefore. split.
    + intros j Hj. rewrite Hbefore by lia. apply list_lookup_insert_ne. lia.
    + intros [|j] Hj.
      * exists X1, ll1, self1. split.
        -- simpl. rewrite take_0, filter_loop_cons, Hstep. reflexivity.
        -- rewrite Nat.add_0_r, Hbefore by lia. now apply list_lookup_insert_eq.
      * destruct (Hin j) as (Xj & llj & selfj & Hl & Hc); [simpl in Hj; lia|].
        exists Xj, llj, selfj. split.
        -- change (take (S (S j)) (z :: Z)) with (z :: take (S j) Z).
           rewrite filter_loop_cons, Hstep. exact Hl.
        -- now replace (k + S j) with (S k + j) by lia.
Qed.


End LoopFacts.

(** ** [batch_filter] as a whole *)

Section BatchFacts.
Context {F : Type} {SF : Scalar F} {CF : Collaborators F}.

Lemma allocate_histories_fields (store : bool) (T : nat) (self : TEnKF) :
  let self' := allocate_histories store T self in
  self_N self' = self_N self /\ self_dim_x self' = self_dim_x self
  /\ self_dim_z self' = self_dim_z self /\ self_R self' = self_R self
  /\ self_Q self' = self_Q self /\ self_P self' = self_P self
  /\ self_x self' = self_x self /\ self_seed self' = self_seed self.
Proof. destruct store; simpl; tauto. Qed.

(** What the lines before the loop leave on the object. *)
Lemma filter_setup_inv (self : TEnKF) (g : G) (Z : list (vec F))
    (init_states : option (matrix F)) (seed : option nat) (store : bool) (su : setup) :
  filter_setup self g Z init_states seed store = Ok su ->
  let T := length Z in
  let D := self_dim_x self in
  let n := self_N self in
  self_N (su_self su) = n /\ self_dim_x (su_self su) = D
  /\ hist_ok T D n (self_Xs (su_self su))
  /\ if store
     then hist_ok T D n (self_X_priors (su_self su))
          /\ hist_ok T D n (self_X_bars (su_self su))
          /\ hist_ok T D n (self_X_bar_priors (su_self su))
     else self_X_priors (su_self su) = self_X_priors self
          /\ self_X_bars (su_self su) = self_X_bars self
          /\ self_X_bar_priors (su_self su) = self_X_bar_priors self.
Proof.
  unfold filter_setup. intros H.
  inv_bind H. destruct a as [mus g1]. inv_bind H. destruct a as [epss g2].
  inv_bind H. destruct a as [X g3]. injection H as <-. simpl.
  destruct store; simpl; repeat split; auto using np_empty3_ok.
Qed.

Lemma batch_filter_inv (self self1 : TEnKF) (g g1 : G) (Z : list (vec F))
    (init_states : option (matrix F)) (seed : option nat) (store calc_ll : bool)
    (r : retval) :
  batch_filter self g Z init_states seed store calc_ll = Ok (r, self1, g1) ->
  exists su X ll self',
    filter_setup self g Z init_states seed store = Ok su
    /\ run_loop self su store calc_ll Z = Ok (X, ll, self')
    /\ g1 = su_g su
    /\ if calc_ll
       then r = RetLL ll /\ self1 = set_ll (Some ll) self'
       else exists a, self_Xs self' = Some a /\ r = RetArray (np_rollaxis2 a)
                      /\ self1 = self'.
Proof.
  unfold batch_filter. intros H.
  inv_bind H. rename a into su. inv_bind H. destruct a as [[X ll] self'].
  exists su, X, ll, self'. do 2 (split; [assumption|]).
  destruct calc_ll.
  - injection H as <- <- <-. auto.
  - inv_bind H. injection H as <- <- <-.
    destruct (self_Xs self') as [a'|]; simpl in Ha1; [|discriminate].
    injection Ha1 as <-. eauto.
Qed.

(** After a run that returned, [self.Xs] is a well-formed history of the
    length of [Z], and so are the three other histories when [store] was
    set; without [store] those three are what they were before the call. *)
Lemma batch_filter_histories (self self1 : TEnKF) (g g1 : G) (Z : list (vec F))
    (init_states : option (matrix F)) (seed : option nat) (store calc_ll : bool)
    (r : retval) :
  batch_filter self g Z init_states seed store calc_ll = Ok (r, self1, g1) ->
  let T := length Z in
  let D := self_dim_x self in
  let n := self_N self in
  hist_ok T D n (self_Xs self1)
  /\ if store
     then hist_ok T D n (self_X_priors self1)
          /\ hist_ok T D n (self_X_bars self1)
          /\ hist_ok T D n (self_X_bar_priors self1)
     else self_X_priors self1 = self_X_priors self
          /\ self_X_bars self1 = self_X_bars self
          /\ self_X_bar_priors self1 = self_X_bar_priors self.
Proof.
  intros H T D n. apply batch_filter_inv in H as (su & X & ll & self' & Hsu & Hl & _ & Hr).
  apply filter_setup_inv in Hsu as (_ & _ & K1 & K2). fold T D n in K1, K2.
  unfold run_loop in Hl.
  pose proof (filter_loop_hist_ok _ _ _ _ _ _ _ _ _ _ _ _ _ _ _ _ _ T D n Hl)
    as (_ & _ & J1 & J2 & J3 & J4).
  assert (E : self_Xs self1 = self_Xs self' /\ self_X_priors self1 = self_X_priors self'
              /\ self_X_bars self1 = self_X_bars self'
              /\ self_X_bar_priors self1 = self_X_bar_priors self').
  { destruct calc_ll.
    - destruct Hr as (_ & ->). simpl. tauto.
    - destruct Hr as (a & _ & _ & ->). tauto. }
  destruct E as (-> & -> & -> & ->). split; [auto|].
  destruct store.
  - destruct K2 as (? & ? & ?). auto.
  - apply filter_loop_nostore in Hl as (L2 & L3 & L4); [|reflexivity].
    destruct K2 as (? & ? & ?). repeat split; congruence.
Qed.

End BatchFacts.

(** ** The smoother *)

Section SmootherFacts.
Context {F : Type} {SF : Scalar F} {CF : Collaborators F}.
Variable self : TEnKF (F := F).

Lemma getitem3_inv (a : ndarray3 F) (i : nat) (M : matrix F) :
  getitem3 a i = Ok M -> cells a !! i = Some M.
Proof. unfold getitem3. destruct (cells a !! i); [now intros [= ->] | discriminate]. Qed.

Lemma getattr_inv {A : Type} (name : string) (v : option A) (a : A) :
  getattr name v = Ok a -> v = Some a.
Proof. destruct v; simpl; [now intros [= ->] | discriminate]. Qed.

Lemma smoother_step_inv (i : nat) (S_run S' : matrix F) (Ss Ss' : ndarray3 F) :
  smoother_step self i (S_run, Ss) = Ok (S', Ss') ->
  smoother_recurrence self i S_run S'
  /\ i < length (cells Ss)
  /\ has_shape (dim1 Ss) (dim2 Ss) S' = true
  /\ Ss' = mk_ndarray3 (dim1 Ss) (dim2 Ss) (<[i := S']> (cells Ss)).
Proof.
  unfold smoother_step. intros H.
  inv_bind H. rename a into xb. apply getattr_inv in Ha.
  inv_bind H. rename a into Xb. apply getitem3_inv in Ha0.
  inv_bind H. rename a into xbp. apply getattr_inv in Ha1.
  inv_bind H. rename a into Xbp. apply getitem3_inv in Ha2.
  inv_bind H. rename a into xs. apply getattr_inv in Ha3.
  inv_bind H. rename a into Xi. apply getitem3_inv in Ha4.
  inv_bind H. rename a into xp. apply getattr_inv in Ha5.
  inv_bind H. rename a into Xp. apply getitem3_inv in Ha6.
  inv_bind H. injection H as <- <-.
  apply setitem3_inv in Ha7 as (Hlt & Hsh & ->).
  split; [|auto]. exists xb, xbp, xs, xp, Xb, Xbp, Xi, Xp. repeat split; assumption.
Qed.

Lemma rev_seq_S (m : nat) : rev (seq 0 (S m)) = m :: rev (seq 0 m).
Proof. rewrite seq_S, rev_app_distr. reflexivity. Qed.

(** The loop of the smoother over the indices [m - 1, ..., 0], entered with
    the running ensemble equal to entry [m] of [Ss]. *)
Lemma smoother_loop_spec (m : nat) :
  forall (S_run S' : matrix F) (Ss Ss' : ndarray3 F),
    for_each (smoother_step self) (rev (seq 0 m)) (S_run, Ss) = Ok (S', Ss') ->
    cells Ss !! m = Some S_run ->
    dim1 Ss' = dim1 Ss /\ dim2 Ss' = dim2 Ss
    /\ length (cells Ss') = length (cells Ss)
    /\ (forall j, m <= j -> cells Ss' !! j = cells Ss !! j)
    /\ (forall j, j < m ->
          exists S_next S_j,
            cells Ss' !! (j + 1) = Some S_next /\ cells Ss' !! j = Some S_j
            /\ smoother_recurrence self j S_next S_j)
    /\ (Forall (fun M => has_shape (dim1 Ss) (dim2 Ss) M = true) (cells Ss) ->
        Forall (fun M => has_shape (dim1 Ss) (dim2 Ss) M = true) (cells Ss')).
Proof.
  induction m as [|m IH]; intros S_run S' Ss Ss' H Hm.
  - simpl in H. injection H as <- <-. repeat split; auto. intros j Hj; lia.
  - rewrite rev_seq_S in H. simpl in H. inv_bind H. destruct a as [S1 Ss1].
    apply smoother_step_inv in Ha as (Hrec & Hlt & Hsh & ->).
    apply IH in H; [|simpl; now apply list_lookup_insert_eq].
    simpl in H. rewrite length_insert in H.
    destruct H as (E1 & E2 & E3 & E4 & E5 & E6).
    assert (Hm0 : cells Ss' !! m = Some S1).
    { rewrite E4 by lia. now apply list_lookup_insert_eq. }
    assert (Hm1 : cells Ss' !! (m + 1) = Some S_run).
    { rewrite E4 by lia. rewrite list_lookup_insert_ne by lia.
      now replace (m + 1) with (S m) by lia. }
    repeat split; auto.
    + intros j Hj. rewrite E4 by lia. apply list_lookup_insert_ne. lia.
    + intros j Hj. destruct (Nat.eq_dec j m) as [->|Hne].
      * exists S_run, S1. auto.
      * apply E5. lia.
    + intros Hall. apply E6. now apply Forall_insert.
Qed.

Lemma smoother_step_total (T D n : nat) (i : nat) (S_run : matrix F) (Ss : ndarray3 F) :
  hist_ok T D n (self_Xs self) -> hist_ok T D n (self_X_priors self) ->
  hist_ok T D n (self_X_bars self) -> hist_ok T D n (self_X_bar_priors self) ->
  i + 1 < T -> hist_ok T D n (Some Ss) -> has_shape D n S_run = true ->
  exists S' Ss', smoother_step self i (S_run, Ss) = Ok (S', Ss')
                 /\ hist_ok T D n (Some Ss') /\ has_shape D n S' = true.
Proof.
  intros (xs & Hxs & Lxs & _ & _ & Fxs) (xp & Hxp & Lxp & _ & _ & Fxp)
    (xb & Hxb & Lxb & _ & _ & Fxb) (xbp & Hxbp & Lxbp & _ & _ & Fxbp) Hi HSs HS.
  unfold smoother_step. rewrite Hxb, Hxbp, Hxs, Hxp. simpl.
  destruct (lookup_lt_is_Some_2 (cells xb) i) as [Xb EXb]; [lia|].
  destruct (lookup_lt_is_Some_2 (cells xbp) (i + 1)) as [Xbp EXbp]; [lia|].
  destruct (lookup_lt_is_Some_2 (cells xs) i) as [Xi EXi]; [lia|].
  destruct (lookup_lt_is_Some_2 (cells xp) (i + 1)) as [Xp EXp]; [lia|].
  unfold getitem3. rewrite EXb; simpl. rewrite EXbp; simpl. rewrite EXi; simpl.
  rewrite EXp; simpl.
  pose proof (proj1 (List.Forall_forall _ _) Fxb Xb) as SXb.
  pose proof (proj1 (List.Forall_forall _ _) Fxs Xi) as SXi.
  pose proof (proj1 (List.Forall_forall _ _) Fxp Xp) as SXp.
  assert (Hsh : has_shape D n
            (mat_add Xi (matmul (matmul Xb (tinv Xbp)) (mat_sub S_run Xp))) = true).
  { apply has_shape_smoothed; auto.
    - apply SXi. eapply list_elem_of_In, list_elem_of_lookup_2; eauto.
    - apply SXp. eapply list_elem_of_In, list_elem_of_lookup_2; eauto.
    - unfold matmul. rewrite length_map.
      apply has_shape_spec in SXb as [? _]; auto.
      eapply list_elem_of_In, list_elem_of_lookup_2; eauto. }
  destruct HSs as (Ss0 & [= <-] & LSs & D1 & D2 & FSs).
  unfold setitem3. destruct (Nat.ltb_spec i (length (cells Ss))); [|lia]. simpl.
  rewrite D1, D2, Hsh. simpl.
  eexists _, _. split; [reflexivity|]. split; [|assumption].
  eexists; split; [reflexivity|]. simpl. rewrite length_insert.
  repeat split; auto. now apply Forall_insert.
Qed.

(** On well-formed histories of one shape the loop of the smoother runs to
    its end. *)
Lemma smoother_loop_total (T D n : nat) (m : nat) :
  hist_ok T D n (self_Xs self) -> hist_ok T D n (self_X_priors self) ->
  hist_ok T D n (self_X_bars self) -> hist_ok T D n (self_X_bar_priors self) ->
  forall (S_run : matrix F) (Ss : ndarray3 F),
    m < T -> hist_ok T D n (Some Ss) -> has_shape D n S_run = true ->
    exists S' Ss', for_each (smoother_step self) (rev (seq 0 m)) (S_run, Ss) = Ok (S', Ss').
Proof.
  intros H1 H2 H3 H4.
  induction m as [|m IH]; intros S_run Ss Hm HSs HS.
  - simpl. eauto.
  - rewrite rev_seq_S. cbn [for_each].
    destruct (smoother_step_total T D n m S_run Ss) as (S1 & Ss1 & -> & K1 & K2);
      auto; [lia|].
    cbn [mbind result_bind]. apply IH; auto. lia.
Qed.

Lemma rts_smoother_inv (means : option (list (vec F))) (covs : option (list (matrix F)))
    (rcond : F) (out : ndarray3 F) (self2 : TEnKF) :
  rts_smoother self means covs rcond = Ok (out, self2) ->
  exists (xs ss : ndarray3 F) (S_last S' : matrix F),
    self_Xs self = Some xs /\ last (cells xs) = Some S_last
    /\ for_each (smoother_step self) (rev (seq 0 (length (cells xs) - 1))) (S_last, xs)
       = Ok (S', ss)
    /\ out = np_rollaxis2 ss /\ self2 = set_Ss (Some ss) self.
Proof.
  unfold rts_smoother. intros H.
  inv_bind H. rename a into xs. apply getattr_inv in Ha.
  inv_bind H. rename a into S_last.
  inv_bind H. destruct a as [S' ss]. injection H as <- <-.
  exists xs, ss, S_last, S'. repeat split; auto.
  unfold getitem3_last in Ha0. destruct (last (cells xs)); [now injection Ha0 as -> | discriminate].
Qed.

End SmootherFacts.

(** ** [np.rollaxis] *)

Section RollFacts.
Context {F : Type} {SF : Scalar F}.

Lemma nth_nil_zero (i : nat) : nth i (@nil F) fzero = fzero.
Proof. now destruct i. Qed.

Lemma col_nil (i : nat) : col i (@nil (list F)) = [].
Proof. reflexivity. Qed.



End RollFacts.

(** ** The claims about [rts_smoother] *)

Section SmootherClaims.
Context {F : Type} {SF : Scalar F} {CF : Collaborators F}.

Lemma smoother_indices_lookup (T k : nat) :
  k < T - 1 -> smoother_indices T !! k = Some (T - 2 - k).
Proof.
  intros Hk. unfold smoother_indices.
  rewrite rev_alt. apply (reverse_lookup_Some (seq 0 (T - 1))).
  rewrite length_seq. split; [apply lookup_seq; lia | lia].
Qed.

(** C2. A call of [rts_smoother] that returns has run its loop over the
    indices [T - 2, T - 3, ..., 0] in that order, from a running ensemble that
    started as the last entry of [self.Xs]; the last entry of the smoothed
    history is that entry, and every earlier entry [i] is
    [posterior_i + J (smoothed_{i+1} - prior_{i+1})] with
    [J = X_bars[i] @ tinv(X_bar_priors[i+1])]: the posterior anomaly at [i]
    times the generalised inverse ([tinv], not [numpy.linalg.inv]) of the
    prior anomaly at [i + 1]. *)
Theorem rts_smoother_backward_recursion
    (self self2 : TEnKF) (means : option (list (vec F)))
    (covs : option (list (matrix F))) (rcond : F) (out : ndarray3 F) :
  rts_smoother self means covs rcond = Ok (out, self2) ->
  exists xs ss : ndarray3 F,
    self_Xs self = Some xs /\ self_Ss self2 = Some ss /\ out = np_rollaxis2 ss
    /\ length (cells ss) = length (cells xs)
    /\ (forall k, k < length (cells xs) - 1 ->
          smoother_indices (length (cells xs)) !! k = Some (length (cells xs) - 2 - k))
    /\ (exists X_last, last (cells xs) = Some X_last /\ last (cells ss) = Some X_last)
    /\ (forall i, i < length (cells xs) - 1 ->
          exists S_next S_i,
            cells ss !! (i + 1) = Some S_next /\ cells ss !! i = Some S_i
            /\ smoother_recurrence self i S_next S_i).
Proof.
  intros H. apply rts_smoother_inv in H as (xs & ss & S_last & S' & Hxs & Hlast & Hl & -> & ->).
  exists xs, ss. simpl.
  assert (Hm : cells xs !! (length (cells xs) - 1) = Some S_last).
  { rewrite last_lookup in Hlast. now replace (length (cells xs) - 1) with
      (Init.Nat.pred (length (cells xs))) by lia. }
  apply smoother_loop_spec in Hl as (_ & _ & E3 & E4 & E5 & _); [|assumption].
  repeat split; auto.
  - intros k Hk. now apply smoother_indices_lookup.
  - exists S_last. split; [assumption|].
    rewrite last_lookup, E3.
    replace (Init.Nat.pred (length (cells xs))) with (length (cells xs) - 1) by lia.
    now rewrite E4 by lia.
Qed.

(** C3. After a run of [batch_filter] with [store] on a non-empty sequence of
    observations that returned, [rts_smoother] returns; the smoothed history
    has the shape of the filter's stored history [self.Xs] (as many time
    steps, every cell [dim_x x N]), and its entry at the last time step is
    the entry of [self.Xs] there, which is the ensemble that the loop of the
    filter ended with. *)
Theorem smoother_terminal_equivalence
    (self self1 : TEnKF) (g g1 : G) (Z : list (vec F))
    (init_states : option (matrix F)) (seed : option nat) (calc_ll : bool)
    (r : retval) (means : option (list (vec F))) (covs : option (list (matrix F)))
    (rcond : F) :
  batch_filter self g Z init_states seed true calc_ll = Ok (r, self1, g1) ->
  Z <> [] ->
  exists (xs ss out : ndarray3 F) (self2 : TEnKF) (X_last : matrix F),
    self_Xs self1 = Some xs
    /\ rts_smoother self1 means covs rcond = Ok (out, self2)
    /\ self_Ss self2 = Some ss /\ out = np_rollaxis2 ss
    /\ hist_ok (length Z) (self_dim_x self) (self_N self) (Some xs)
    /\ hist_ok (length Z) (self_dim_x self) (self_N self) (Some ss)
    /\ last (cells xs) = Some X_last /\ last (cells ss) = Some X_last
    /\ exists su ll self', filter_setup self g Z init_states seed true = Ok su
                           /\ run_loop self su true calc_ll Z = Ok (X_last, ll, self').
Proof.
  intros Hrun HZ.
  pose proof (batch_filter_histories _ _ _ _ _ _ _ _ _ _ Hrun) as (Kxs & Kxp & Kxb & Kxbp).
  set (T := length Z) in *. set (D := self_dim_x self) in *. set (n := self_N self) in *.
  assert (HT : 0 < T) by (subst T; destruct Z; [contradiction | simpl; lia]).
  destruct Kxs as (xs & Hxs & Lxs & D1 & D2 & Fxs).
  assert (Kxs : hist_ok T D n (self_Xs self1)) by (rewrite Hxs; now exists xs).
  (* the last entry of the stored history is the final ensemble *)
  apply batch_filter_inv in Hrun as (su & X & ll & self' & Hsu & Hl & _ & Hr).
  assert (Hxs' : self_Xs self' = Some xs).
  { destruct calc_ll.
    - destruct Hr as (_ & ->). exact Hxs.
    - destruct Hr as (a & _ & _ & ->). exact Hxs. }
  pose proof (filter_setup_inv _ _ _ _ _ _ _ Hsu) as (_ & _ & (a0 & Ha0 & _) & _).
  pose proof Hl as Hl'. unfold run_loop in Hl'.
  eapply filter_loop_Xs_entries in Hl' as (a' & Ha' & _ & Hin); [|reflexivity|exact Ha0].
  rewrite Hxs' in Ha'. injection Ha' as <-.
  destruct (Hin (T - 1)) as (Xj & llj & selfj & Hpre & Hc); [lia|].
  replace (S (T - 1)) with (length Z) in Hpre by (subst T; lia).
  rewrite firstn_all in Hpre. fold (run_loop self su true calc_ll Z) in Hpre.
  rewrite Hl in Hpre. injection Hpre as <- <- <-. simpl in Hc.
  assert (Hlast : last (cells xs) = Some X).
  { rewrite last_lookup, Lxs. now replace (Init.Nat.pred T) with (T - 1) by lia. }
  (* the smoother runs to its end *)
  assert (HX : has_shape D n X = true).
  { rewrite List.Forall_forall in Fxs. apply Fxs.
    eapply list_elem_of_In, list_elem_of_lookup_2; eauto. }
  destruct (smoother_loop_total self1 T D n (T - 1) Kxs Kxp Kxb Kxbp X xs)
    as (S' & ss & Hloop); [lia | now exists xs | assumption |].
  assert (Hsm : rts_smoother self1 means covs rcond
                = Ok (np_rollaxis2 ss, set_Ss (Some ss) self1)).
  { unfold rts_smoother. rewrite Hxs. simpl. unfold getitem3_last. rewrite Hlast. simpl.
    unfold smoother_indices. rewrite Lxs, Hloop. reflexivity. }
  apply smoother_loop_spec in Hloop as (E1 & E2 & E3 & E4 & _ & E6);
    [|now rewrite <- Hc].
  exists xs, ss, (np_rollaxis2 ss), (set_Ss (Some ss) self1), X.
  repeat split; auto.
  - now exists xs.
  - exists ss. rewrite D1, D2 in E6. repeat split; auto; congruence.
  - rewrite last_lookup, E3, Lxs.
    replace (Init.Nat.pred T) with (T - 1) by lia. rewrite E4 by lia. exact Hc.
  - eauto.
Qed.

(** C7 (as amended).  [rts_smoother] makes no check of its own.  On an
    object on which [batch_filter] never ran it raises AttributeError for
    [Xs] at its first statement.  After a run without [store] on such an
    object, [self.Xs] exists and has the length of [Z]: the smoother then
    raises AttributeError for [X_bars] in the first pass of its loop when
    there are two observations or more, returns the rolled [self.Xs] without
    any error when there is one, and raises IndexError when there is none. *)
Theorem smoother_without_stored_history
    (N dim_x dim_z : nat) (seed0 : option nat) (self1 : TEnKF) (g g1 : G)
    (Z : list (vec F)) (init_states : option (matrix F)) (seed : option nat)
    (calc_ll : bool) (r : retval) (means : option (list (vec F)))
    (covs : option (list (matrix F))) (rcond : F) :
  batch_filter (__init__ N dim_x dim_z seed0) g Z init_states seed false calc_ll
  = Ok (r, self1, g1) ->
  rts_smoother (__init__ N dim_x dim_z seed0) means covs rcond
  = Raise (AttributeError "Xs")
  /\ exists xs,
      self_Xs self1 = Some xs /\ length (cells xs) = length Z
      /\ rts_smoother self1 means covs rcond
         = match length Z with
           | 0 => Raise IndexError
           | 1 => Ok (np_rollaxis2 xs, set_Ss (Some xs) self1)
           | _ => Raise (AttributeError "X_bars")
           end.
Proof.
  intros Hrun. split; [reflexivity|].
  apply batch_filter_histories in Hrun as ((xs & Hxs & Lxs & _) & _ & Hxb & _).
  simpl in Hxb. exists xs. repeat split; auto.
  unfold rts_smoother. rewrite Hxs. simpl. unfold getitem3_last, smoother_indices.
  rewrite <- Lxs. destruct (cells xs) as [|M [|M' l]] eqn:E.
  - reflexivity.
  - reflexivity.
  - rewrite last_lookup. simpl length.
    destruct (lookup_lt_is_Some_2 (M :: M' :: l) (Init.Nat.pred (S (S (length l)))))
      as [Ml ->]; [simpl; lia|].
    cbn [mbind result_bind].
    replace (S (S (length l)) - 1) with (S (length l)) by lia.
    rewrite rev_seq_S. cbn [for_each]. unfold smoother_step. rewrite Hxb. reflexivity.
Qed.

End SmootherClaims.

(** ** The claims about [batch_filter] *)

Section FilterClaims.
Context {F : Type} {SF : Scalar F} {CF : Collaborators F}.





End FilterClaims.

(** ** The update in exact arithmetic

    Over scalars that form a field, the array expressions of lines 98-102
    compute what the specification describes member by member. *)

Section UpdateAlgebra.
Context {F : Type} {SF : Scalar F}.
Variables (fopp finv : F -> F).
Hypothesis Fth : field_theory fzero fone fadd fmul fsub fopp fdiv finv eq.
Add Field Ffield : Fth.

#[local] Open Scope F_scope.

Lemma fdiv_def (a b : F) : a / b = a * finv b.
Proof. apply (Fdiv_def Fth). Qed.

Lemma zip_with_map_same {A B C D : Type} (f : B -> C -> D) (g : A -> B) (h : A -> C)
    (l : list A) :
  zip_with f (map g l) (map h l) = map (fun a => f (g a) (h a)) l.
Proof. induction l as [|a l IH]; simpl; [reflexivity | now rewrite IH]. Qed.

Lemma zip_with_map_r_same {A B C : Type} (f : A -> B -> C) (h : A -> B) (l : list A) :
  zip_with f l (map h l) = map (fun a => f a (h a)) l.
Proof. induction l as [|a l IH]; simpl; [reflexivity | now rewrite IH]. Qed.

Lemma repeat_map_seq {A : Type} (a : A) (n s : nat) :
  repeat a n = map (fun _ => a) (seq s n).
Proof. revert s; induction n as [|n IH]; intros s; simpl; [reflexivity | now rewrite <- IH]. Qed.

Lemma map_nth_seq (x : vec F) :
  map (fun j => nth j x fzero) (seq 0 (length x)) = x.
Proof.
  induction x as [|a x IH]; simpl; [reflexivity|].
  now rewrite <- seq_shift, map_map, IH.
Qed.

(** The centring operator of line 62, entry by entry. *)
Lemma centering_entries (N : nat) :
  centering N
  = map (fun i =>
           map (fun j => (if (i =? j)%nat then fone else fzero) - fone * fone / of_nat N)
             (seq 0 N))
      (seq 0 N).
Proof.
  unfold centering, mat_sub, np_eye, div_scalar, np_outer, np_ones.
  rewrite (repeat_map_seq fone N 0), !List.map_map, zip_with_map_same.
  apply map_ext. intros i. unfold vsub. rewrite ?List.map_map. apply zip_with_map_same.
Qed.

Lemma col_centering (N j : nat) :
  j < N ->
  col j (centering N)
  = map (fun i => (if (i =? j)%nat then fone else fzero) - fone * fone / of_nat N)
      (seq 0 N).
Proof.
  intros Hj. rewrite centering_entries. unfold col. rewrite map_map.
  apply map_ext. intros i. now rewrite nth_map_seq.
Qed.

Lemma ncols_centering (N : nat) : ncols (centering N) = N.
Proof.
  rewrite centering_entries. unfold ncols. destruct N; [reflexivity|].
  simpl. now rewrite length_map, length_seq.
Qed.

(** A row times a column of the centring operator. *)
Lemma dot_centering_col (c : F) (j : nat) (x : vec F) :
  forall s,
    dot x (map (fun i => (if (i =? j)%nat then fone else fzero) - c)
             (seq s (length x)))
    = (if ((s <=? j) && (j <? s + length x))%nat then nth (j - s) x fzero else fzero)
      - c * vsum x.
Proof.
  unfold dot. induction x as [|a x IH]; intros s.
  - simpl. rewrite Nat.add_0_r.
    destruct (Nat.leb_spec s j), (Nat.ltb_spec j s); simpl; try lia; ring.
  - simpl length. simpl seq. simpl map. simpl zip_with. simpl vsum.
    rewrite IH. simpl vsum.
    destruct (Nat.eqb_spec s j) as [->|Hne].
    + rewrite Nat.leb_refl, Nat.sub_diag.
      destruct (Nat.ltb_spec j (j + S (length x))); [|lia].
      destruct (Nat.leb_spec (S j) j); [lia|]. simpl. ring.
    + destruct (Nat.leb_spec s j), (Nat.leb_spec (S s) j); try lia; simpl.
      * replace (j - s)%nat with (S (j - S s)) by lia. simpl.
        replace (s + S (length x))%nat with (S s + length x)%nat by lia.
        change (S s + length x)%nat with (S (s + length x)).
        destruct (j <? S (s + length x))%nat; ring.
      * ring.
Qed.

(** Line 98 and 99: multiplying by the centring operator subtracts from
    every row its mean. *)
Lemma matmul_centering (r N : nat) (M : matrix F) :
  has_shape r N M = true -> matmul M (centering N) = spec_center M.
Proof.
  intros H. apply has_shape_spec in H as [_ H]. unfold matmul, spec_center.
  rewrite ncols_centering. apply map_ext_in. intros x Hx.
  rewrite List.Forall_forall in H. specialize (H x Hx).
  transitivity (map (fun v => v - vsum x / of_nat (length x))
                  (map (fun j => nth j x fzero) (seq 0 (length x))));
    [|now rewrite map_nth_seq].
  rewrite List.map_map, H.
  apply map_ext_in. intros j Hj. apply in_seq in Hj.
  rewrite col_centering by lia. rewrite <- H at 1. rewrite dot_centering_col.
  rewrite H. simpl. destruct (Nat.ltb_spec j N); [|lia].
  rewrite Nat.sub_0_r, !fdiv_def. ring.
Qed.

Lemma map_nth_seq_gen {B : Type} (f : list F -> B) (M : matrix F) :
  map (fun j => f (nth j M [])) (seq 0 (length M)) = map f M.
Proof.
  induction M as [|row M IH]; simpl; [reflexivity|].
  now rewrite <- seq_shift, List.map_map, IH.
Qed.

Lemma nth_zip_with (f : F -> F -> F) (u v : vec F) (i : nat) :
  (i < length u)%nat -> (i < length v)%nat ->
  nth i (zip_with f u v) fzero = f (nth i u fzero) (nth i v fzero).
Proof.
  revert v i. induction u as [|a u IH]; intros [|b v] [|i] Hu Hv; simpl in *;
    try lia; [reflexivity|]. apply IH; lia.
Qed.

Lemma col_zip_with (f : F -> F -> F) (r c i : nat) (A B : matrix F) :
  has_shape r c A = true -> has_shape r c B = true -> (i < c)%nat ->
  col i (zip_with (zip_with f) A B) = zip_with f (col i A) (col i B).
Proof.
  rewrite !has_shape_spec. intros [HA1 HA2] [HB1 HB2] Hi. clear HA1 HB1.
  revert B HB2. induction HA2 as [|ra A Hra HA IH]; intros B HB2.
  - reflexivity.
  - destruct HB2 as [|rb B Hrb HB]; [reflexivity|]. simpl.
    rewrite nth_zip_with by lia. f_equal. now apply IH.
Qed.

Lemma col_mat_add (r c i : nat) (A B : matrix F) :
  has_shape r c A = true -> has_shape r c B = true -> (i < c)%nat ->
  col i (mat_add A B) = vadd (col i A) (col i B).
Proof. apply (col_zip_with fadd). Qed.

Lemma col_mat_sub (r c i : nat) (A B : matrix F) :
  has_shape r c A = true -> has_shape r c B = true -> (i < c)%nat ->
  col i (mat_sub A B) = vsub (col i A) (col i B).
Proof. apply (col_zip_with fsub). Qed.

Lemma col_matmul (K M : matrix F) (i : nat) :
  (i < ncols M)%nat -> col i (matmul K M) = mulmv K (col i M).
Proof.
  intros Hi. unfold col at 1, matmul, mulmv. rewrite List.map_map.
  apply map_ext. intros row. now rewrite nth_map_seq.
Qed.

Lemma col_transpose (r c j : nat) (M : matrix F) :
  has_shape r c M = true -> (j < r)%nat -> col j (transpose M) = nth j M [].
Proof.
  intros H Hj. unfold transpose. rewrite (ncols_has_shape _ _ _ H) by lia.
  unfold col at 1. rewrite List.map_map.
  apply has_shape_spec in H as [H1 H2].
  assert (Hlen : length (nth j M []) = c).
  { rewrite List.Forall_forall in H2. apply H2, nth_In. lia. }
  transitivity (map (fun i => nth i (nth j M []) fzero) (seq 0 (length (nth j M []))));
    [|apply map_nth_seq].
  rewrite Hlen. apply map_ext. intros i. unfold col.
  now rewrite (nth_map_default _ _ [] fzero) by apply nth_nil_zero.
Qed.

Lemma has_shape_transpose (r c : nat) (M : matrix F) :
  has_shape r c M = true -> (0 < r)%nat -> has_shape c r (transpose M) = true.
Proof.
  intros H Hr. unfold transpose. rewrite (ncols_has_shape _ _ _ H) by lia.
  apply has_shape_spec in H as [H1 H2]. apply has_shape_spec.
  rewrite length_map, length_seq. split; [reflexivity|].
  apply List.Forall_forall. intros row Hrow. apply in_map_iff in Hrow as (i & <- & _).
  unfold col. now rewrite length_map.
Qed.

Lemma has_shape_np_outer_ones (z : vec F) (N : nat) :
  has_shape (length z) N (np_outer z (np_ones N)) = true.
Proof.
  apply has_shape_spec. unfold np_outer, np_ones. rewrite length_map.
  split; [reflexivity|]. apply List.Forall_forall. intros row Hrow.
  apply in_map_iff in Hrow as (a & <- & _). now rewrite length_map, repeat_length.
Qed.

Lemma col_np_outer_ones (z : vec F) (N i : nat) :
  (i < N)%nat -> col i (np_outer z (np_ones N)) = z.
Proof.
  intros Hi. unfold col, np_outer, np_ones. rewrite List.map_map.
  rewrite <- (map_id z) at 2. apply map_ext. intros a.
  rewrite (repeat_map_seq fone N 0), List.map_map, nth_map_seq by assumption. ring.
Qed.

Lemma has_shape_spec_center (r c : nat) (M : matrix F) :
  has_shape r c M = true -> has_shape r c (spec_center M) = true.
Proof.
  rewrite !has_shape_spec. unfold spec_center. rewrite length_map.
  intros [H1 H2]. split; [assumption|]. apply List.Forall_forall.
  intros row' Hin. apply in_map_iff in Hin as (row & <- & Hrow).
  rewrite length_map. rewrite List.Forall_forall in H2. auto.
Qed.

Lemma of_int_pred (N : nat) : (1 <= N)%nat -> of_int (Z.of_nat N - 1) = of_nat (N - 1).
Proof.
  intros HN. destruct N as [|m]; [lia|].
  replace (Z.of_nat (S m) - 1)%Z with (Z.of_nat m) by lia.
  replace (S m - 1)%nat with m by lia.
  destruct m as [|m']; [reflexivity|]. simpl of_int.
  now rewrite SuccNat2Pos.id_succ.
Qed.

Lemma np_cov_fact_pred (N : nat) : (2 <= N)%nat -> np_cov_fact N = of_nat (N - 1).
Proof.
  intros HN. unfold np_cov_fact.
  destruct (Z.leb_spec (Z.of_nat N - 1) 0); [lia|]. apply of_int_pred. lia.
Qed.

(** Line 101: [np.cov] is the sample covariance with [N - 1] normalisation. *)
Lemma np_cov_spec (r N : nat) (Y : matrix F) :
  has_shape r N Y = true -> (2 <= N)%nat -> np_cov Y = spec_sample_cov N Y.
Proof.
  intros H HN. destruct r as [|r].
  { apply has_shape_zero_rows in H as ->. reflexivity. }
  assert (Hc : ncols Y = N) by (apply (ncols_has_shape _ _ _ H); lia).
  unfold np_cov, spec_sample_cov, np_mean_axis1.
  rewrite zip_with_map_r_same, Hc, np_cov_fact_pred by assumption.
  assert (E : map (fun a : list F => map (fun v => v - vsum a / of_nat N) a) Y
              = spec_center Y).
  { unfold spec_center. apply map_ext_in. intros row Hrow.
    apply has_shape_spec in H as [_ H]. rewrite List.Forall_forall in H.
    now rewrite (H row Hrow). }
  rewrite E. clear E.
  pose proof (has_shape_spec_center _ _ _ H) as HC.
  set (C := spec_center Y) in *.
  unfold scale_r, matmul. rewrite List.map_map.
  assert (Ht : ncols (transpose C) = S r).
  { apply (ncols_has_shape N); [|lia]. apply has_shape_transpose; [assumption|lia]. }
  rewrite Ht.
  assert (HlenC : length C = S r) by (apply has_shape_spec in HC as [? _]; assumption).
  rewrite <- HlenC.
  apply map_ext. intros ra. rewrite List.map_map.
  rewrite <- (map_nth_seq_gen (fun rb => dot ra rb / of_nat (N - 1)) C).
  apply map_ext_in. intros j Hj. apply in_seq in Hj.
  rewrite (col_transpose (S r) N) by (assumption || lia).
  rewrite !fdiv_def. ring.
Qed.

(** Lines 98-102 on arrays of conforming shapes: the innovation covariance
    and every column of the updated ensemble, as the specification words
    them. *)
Lemma kalman_update_spec (N D dz : nat) (R X Y S_inv : matrix F) (mu : list (vec F))
    (z : vec F) :
  (2 <= N)%nat -> (1 <= dz)%nat ->
  has_shape D N X = true -> has_shape dz N Y = true ->
  has_shape N dz mu = true -> length z = dz ->
  innovation_cov R Y = spec_innovation_cov N Y R
  /\ forall i, (i < N)%nat ->
       col i (mat_add X (kalman_update (np_ones N) (centering N) X Y S_inv mu z))
       = spec_member_update (spec_gain X Y S_inv) (col i X) (col i Y) (nth i mu []) z.
Proof.
  intros HN Hdz HX HY Hmu Hz. split.
  { unfold innovation_cov, spec_innovation_cov. now rewrite (np_cov_spec dz N). }
  intros i Hi. unfold kalman_update, spec_member_update, spec_gain.
  rewrite (matmul_centering D N X), (matmul_centering dz N Y) by assumption.
  set (K := matmul (matmul (spec_center X) (transpose (spec_center Y))) S_inv).
  assert (HZZ : has_shape dz N (np_outer z (np_ones N)) = true)
    by (rewrite <- Hz; apply has_shape_np_outer_ones).
  assert (HmuT : has_shape dz N (transpose mu) = true)
    by (apply has_shape_transpose; [assumption|lia]).
  pose proof (has_shape_mat_sub _ _ _ _ HZZ HY) as H1.
  pose proof (has_shape_mat_sub _ _ _ _ H1 HmuT) as H2.
  set (innov := mat_sub (mat_sub (np_outer z (np_ones N)) Y) (transpose mu)) in *.
  assert (Hnc : ncols innov = N) by (apply (ncols_has_shape dz); [assumption|lia]).
  assert (HK : length K = D).
  { unfold K, matmul. rewrite !length_map. unfold spec_center. rewrite length_map.
    apply has_shape_spec in HX as [? _]. assumption. }
  pose proof (has_shape_matmul K innov) as HKi. rewrite HK, Hnc in HKi.
  rewrite (col_mat_add D N) by assumption.
  rewrite col_matmul by lia. unfold innov.
  rewrite (col_mat_sub dz N), (col_mat_sub dz N) by assumption.
  rewrite col_np_outer_ones by assumption.
  now rewrite (col_transpose N dz) by assumption.
Qed.

Context {CF : Collaborators F}.

(** C1. In a pass of the loop of [batch_filter] (an ensemble of [N >= 2]
    members, arrays of conforming shapes, scalars forming a field), the
    matrix that is inverted is [(N - 1) S] with [S] the sample covariance of
    the observed ensemble [Y] with [N - 1] normalisation plus [R], and every
    member [i] of the updated ensemble is the predicted member plus the gain
    [Xc Yc^T ((N - 1) S)^-1] applied to [z - Y_i - mu_i], where [Xc] and [Yc]
    are the predicted and observed ensembles with their means subtracted and
    [mu_i] the i-th observation-noise draw of that pass. *)
Theorem filter_step_update_matches_spec
    (N D dz : nat) (R : matrix F) (mus epss : list (list (vec F)))
    (store calc_ll : bool) (nz : nat) (z : vec F) (X X' : matrix F) (ll ll' : F)
    (self self' : TEnKF) :
  (2 <= N)%nat -> (1 <= dz)%nat -> length z = dz ->
  (forall Xp, predict epss nz X = Ok Xp ->
              has_shape D N Xp = true /\ has_shape dz N (observe Xp) = true) ->
  (forall mu, mus !! nz = Some mu -> has_shape N dz mu = true) ->
  filter_step N dz R (np_ones N) (centering N) mus epss store calc_ll
    (nz, z) (X, ll, self) = Ok (X', ll', self') ->
  exists (Xp S_inv : matrix F) (mu : list (vec F)),
    predict epss nz X = Ok Xp
    /\ mus !! nz = Some mu
    /\ np_linalg_inv
         (scale (of_nat (N - 1)) (spec_innovation_cov N (observe Xp) R)) = Ok S_inv
    /\ forall i, (i < N)%nat ->
         col i X'
         = spec_member_update (spec_gain Xp (observe Xp) S_inv)
             (col i Xp) (col i (observe Xp)) (nth i mu []) z.
Proof.
  intros HN Hdz Hz Hshape Hmus Hstep.
  apply filter_step_inv in Hstep
    as (Xp & self1 & S_inv & mu & self2 & Hp & _ & Hinv & Hmu & -> & _).
  destruct (Hshape Xp Hp) as (HX & HY).
  assert (Hmu' : mus !! nz = Some mu).
  { unfold getitem1 in Hmu. destruct (mus !! nz); [now injection Hmu as -> | discriminate]. }
  pose proof (kalman_update_spec N D dz R Xp (observe Xp) S_inv mu z
                HN Hdz HX HY (Hmus mu Hmu') Hz) as (HS & Hcols).
  exists Xp, S_inv, mu. repeat split; auto.
  now rewrite <- HS, <- of_int_pred by lia.
Qed.

End UpdateAlgebra.

(** ** The statements on concrete inputs *)

Lemma filter_step_update_matches_spec_witness :
  exists X' ll' self',
    pass_result = Ok (X', ll', self')
    /\ exists (Xp S_inv : matrix Qc) (mu : list (vec Qc)),
        predict pass_epss 0 pass_X = Ok Xp
        /\ pass_mus !! 0 = Some mu
        /\ np_linalg_inv
             (scale (of_nat (2 - 1)) (spec_innovation_cov 2 (observe Xp) [[Q2Qc 1]]))
           = Ok S_inv
        /\ forall i, i < 2 ->
             col i X'
             = spec_member_update (spec_gain Xp (observe Xp) S_inv)
                 (col i Xp) (col i (observe Xp)) (nth i mu []) [Q2Qc 1].
Proof.
  destruct pass_result as [[[X' ll'] self']|e] eqn:E.
  - exists X', ll', self'. split; [reflexivity|].
    apply (filter_step_update_matches_spec (F := Qc) (SF := Qc_scalar)
             Qcopp Qcinv Qcft 2 1 1 [[Q2Qc 1]]
             pass_mus pass_epss false true 0 [Q2Qc 1] pass_X X' (Q2Qc 0) ll'
             (__init__ 2 1 1 None) self').
    + lia.
    + lia.
    + reflexivity.
    + intros Xp H. vm_compute in H. injection H as <-. split; vm_compute; reflexivity.
    + intros mu H. injection H as <-. reflexivity.
    + exact E.
  - exfalso. vm_compute in E. discriminate.
Defined.

Lemma rts_smoother_backward_recursion_witness :
  exists r self1 g1 out self2,
    batch_filter enkf_2_1_1 (rng 0) [[1%Q]; [2%Q]] None None true false = Ok (r, self1, g1)
    /\ rts_smoother self1 None None 0%Q = Ok (out, self2)
    /\ exists xs ss : ndarray3 Q,
        self_Xs self1 = Some xs /\ self_Ss self2 = Some ss /\ out = np_rollaxis2 ss
        /\ exists S_next S_0,
            cells ss !! 1 = Some S_next /\ cells ss !! 0 = Some S_0
            /\ smoother_recurrence self1 0 S_next S_0.
Proof.
  destruct (batch_filter enkf_2_1_1 (rng 0) [[1%Q]; [2%Q]] None None true false)
    as [[[r self1] g1]|e] eqn:E; [|exfalso; vm_compute in E; discriminate].
  destruct (rts_smoother self1 None None 0%Q) as [[out self2]|e] eqn:E2.
  - exists r, self1, g1, out, self2. split; [reflexivity|]. split; [exact E2|].
    destruct (rts_smoother_backward_recursion self1 self2 None None 0%Q out E2)
      as (xs & ss & Hxs & Hss & Hout & Hlen & _ & _ & Hrec).
    exists xs, ss. do 3 (split; [assumption|]).
    apply (Hrec 0).
    vm_compute in E. injection E as <- <- <-. injection Hxs as <-. simpl. lia.
  - exfalso. vm_compute in E. injection E as <- <- <-. vm_compute in E2. discriminate.
Defined.

Lemma smoother_terminal_equivalence_witness :
  exists r self1 g1,
    batch_filter enkf_2_1_1 (rng 0) [[1%Q]; [2%Q]] None None true false = Ok (r, self1, g1)
    /\ exists (xs ss out : ndarray3 Q) (self2 : TEnKF) (X_last : matrix Q),
        self_Xs self1 = Some xs
        /\ rts_smoother self1 None None 0%Q = Ok (out, self2)
        /\ self_Ss self2 = Some ss
        /\ hist_ok 2 1 2 (Some ss)
        /\ last (cells xs) = Some X_last /\ last (cells ss) = Some X_last.
Proof.
  destruct (batch_filter enkf_2_1_1 (rng 0) [[1%Q]; [2%Q]] None None true false)
    as [[[r self1] g1]|e] eqn:E; [|exfalso; vm_compute in E; discriminate].
  exists r, self1, g1. split; [reflexivity|].
  destruct (smoother_terminal_equivalence enkf_2_1_1 self1 (rng 0) g1 [[1%Q]; [2%Q]]
              None None false r None None 0%Q E)
    as (xs & ss & out & self2 & X_last & H1 & H2 & H3 & _ & _ & H6 & H7 & H8 & _);
    [discriminate|].
  exists xs, ss, out, self2, X_last. auto 10.
Defined.

Lemma explicit_initial_ensemble_raises_witness :
  2 <= array_size [[1%Q; 2%Q]]
  /\ batch_filter enkf_2_1_1 (rng 0) [[1%Q]] (Some [[1%Q; 2%Q]]) None false false
     = Raise (ValueError
                "The truth value of an array with more than one element is ambiguous").
Proof.
  split; [unfold array_size; simpl; lia|].
  apply (explicit_initial_ensemble_raises 2 1 None (rng 0) [[1%Q]] [[1%Q; 2%Q]]
           None false false).
  unfold array_size; simpl; lia.
Defined.

Lemma process_noise_mean_has_observation_dimension_witness :
  batch_filter (__init__ (F := Q) 2 2 1 None) (rng 0) [[1%Q]] None None false false
  = Raise (ValueError "mean and cov must have same length").
Proof.
  apply (process_noise_mean_has_observation_dimension 2 2 1 None (rng 0) [[1%Q]]
           None None false false).
  lia.
Defined.


Lemma smoother_without_stored_history_witness :
  exists r self1 g1 xs,
    batch_filter enkf_2_1_1 (rng 0) [[1%Q]; [2%Q]] None None false false = Ok (r, self1, g1)
    /\ self_Xs self1 = Some xs
    /\ rts_smoother self1 None None 0%Q = Raise (AttributeError "X_bars").
Proof.
  destruct (batch_filter enkf_2_1_1 (rng 0) [[1%Q]; [2%Q]] None None false false)
    as [[[r self1] g1]|e] eqn:E; [|exfalso; vm_compute in E; discriminate].
  destruct (smoother_without_stored_history 2 1 1 None self1 (rng 0) g1 [[1%Q]; [2%Q]]
              None None false r None None 0%Q E)
    as (_ & xs & H1 & _ & H3).
  exists r, self1, g1, xs. auto.
Defined.

(** C7, the claim as stated fails: after a run without [store] on one
    observation, [rts_smoother] reports nothing and returns the filter's
    ensemble. *)
Lemma smoother_runs_without_stored_history :
  exists r self1 g1 self2,
    batch_filter enkf_2_1_1 (rng 0) [[1%Q]] None None false false = Ok (r, self1, g1)
    /\ self_X_priors self1 = None /\ self_X_bars self1 = None
    /\ self_X_bar_priors self1 = None
    /\ rts_smoother self1 None None 0%Q
       = Ok (mk_ndarray3 1 1 [[[689 # 32098]]; [[47605 # 64196]]]%Q, self2).
Proof.
  eexists _, _, _, _. split; [vm_compute; reflexivity|].
  do 3 (split; [reflexivity|]). vm_compute. reflexivity.
Qed.





(** * Further properties of the code *)

(** ** Seeding *)

Section SeedFacts.
Context {F : Type} {SF : Scalar F} {CF : Collaborators F}.

Lemma reseed_truthy (self : TEnKF) (seed : option nat) (g g' : G) :
  truthy_seed seed || truthy_seed (self_seed self) = true ->
  reseed self seed g = reseed self seed g'.
Proof.
  unfold reseed, or_seed. intros H. rewrite H.
  destruct seed as [[|s]|]; simpl in *; try reflexivity;
    destruct (self_seed self) as [[|s']|]; simpl in *; try reflexivity; discriminate.
Qed.

Lemma self_seed_allocate (store : bool) (T : nat) (Z : option (list (vec F)))
    (self : TEnKF) :
  self_seed (allocate_histories store T (set_Z Z self)) = self_seed self.
Proof. now destruct store. Qed.

(** X1.  Lines 72-73: when the [seed] argument or [self.seed] is a non-zero
    integer, the global generator is re-seeded before anything is drawn, so
    the outcome of [batch_filter] (result, object and generator state, or
    the exception) does not depend on the state the generator was in. *)
Theorem batch_filter_seeded_is_reproducible
    (self : TEnKF) (g g' : G) (Z : list (vec F)) (init_states : option (matrix F))
    (seed : option nat) (store calc_ll : bool) :
  truthy_seed seed || truthy_seed (self_seed self) = true ->
  batch_filter self g Z init_states seed store calc_ll
  = batch_filter self g' Z init_states seed store calc_ll.
Proof.
  intros H. unfold batch_filter, filter_setup.
  rewrite (reseed_truthy _ seed g g') by now rewrite self_seed_allocate.
  reflexivity.
Qed.

(** X2.  Lines 72-73: a [seed] argument of [0] is falsy.  When [self.seed] is
    [None] or [0] too, a call with [seed=0] does not seed the generator: it
    is the call without a seed. *)
Theorem batch_filter_seed_zero_is_no_seed
    (self : TEnKF) (g : G) (Z : list (vec F)) (init_states : option (matrix F))
    (store calc_ll : bool) :
  truthy_seed (self_seed self) = false ->
  batch_filter self g Z init_states (Some 0) store calc_ll
  = batch_filter self g Z init_states None store calc_ll.
Proof.
  intros H. unfold batch_filter, filter_setup, reseed.
  rewrite !self_seed_allocate, H. reflexivity.
Qed.


End SeedFacts.

(** ** What a run leaves on the object *)

Section FrameFacts.
Context {F : Type} {SF : Scalar F} {CF : Collaborators F}.

Lemma same_config_refl (o : TEnKF (F := F)) : same_config o o.
Proof. unfold same_config. tauto. Qed.

Lemma same_config_trans (o1 o2 o3 : TEnKF (F := F)) :
  same_config o1 o2 -> same_config o2 o3 -> same_config o1 o3.
Proof. unfold same_config. intuition congruence. Qed.

Lemma filter_step_same_config (N dim_z : nat) (R : matrix F) (I1 : vec F) (I2 : matrix F)
    (mus epss : list (list (vec F))) (store calc_ll : bool) (nz : nat) (z : vec F)
    (X X' : matrix F) (ll ll' : F) (self self' : TEnKF) :
  filter_step N dim_z R I1 I2 mus epss store calc_ll (nz, z) (X, ll, self)
  = Ok (X', ll', self') ->
  same_config self self' /\ self_Z self' = self_Z self /\ self_ll self' = self_ll self.
Proof.
  intros H. apply filter_step_inv in H
    as (Xp & self1 & S_inv & mu & self2 & _ & H1 & _ & _ & _ & H2 & H3).
  apply record_prior_inv in H1. apply record_posterior_inv in H2.
  assert (E1 : same_config self self1 /\ self_Z self1 = self_Z self
               /\ self_ll self1 = self_ll self).
  { destruct store; [destruct H1 as (a & _ & ->) | subst self1];
      unfold same_config; simpl; tauto. }
  assert (E2 : same_config self1 self2 /\ self_Z self2 = self_Z self1
               /\ self_ll self2 = self_ll self1).
  { destruct store; [destruct H2 as (a & b & c & _ & _ & _ & ->) | subst self2];
      unfold same_config; simpl; tauto. }
  assert (E3 : same_config self2 self' /\ self_Z self' = self_Z self2
               /\ self_ll self' = self_ll self2).
  { destruct calc_ll; [destruct H3 as (_ & ->) | destruct H3 as (_ & a & _ & ->)];
      unfold same_config; simpl; tauto. }
  destruct E1 as (A1 & B1 & C1), E2 as (A2 & B2 & C2), E3 as (A3 & B3 & C3).
  split; [eauto using same_config_trans | split; congruence].
Qed.

Lemma filter_loop_same_config (N dim_z : nat) (R : matrix F) (I1 : vec F) (I2 : matrix F)
    (mus epss : list (list (vec F))) (store calc_ll : bool) (Z : list (vec F)) :
  forall (k : nat) (X X' : matrix F) (ll ll' : F) (self self' : TEnKF),
    filter_loop N dim_z R I1 I2 mus epss store calc_ll k Z (X, ll, self)
    = Ok (X', ll', self') ->
    same_config self self' /\ self_Z self' = self_Z self /\ self_ll self' = self_ll self.
Proof.
  induction Z as [|z Z IH]; intros k X X' ll ll' self self' H.
  - rewrite filter_loop_nil in H. injection H as <- <- <-.
    split; [apply same_config_refl | tauto].
  - rewrite filter_loop_cons in H. inv_bind H. destruct a as [[X1 ll1] self1].
    apply filter_step_same_config in Ha as (A1 & B1 & C1).
    apply IH in H as (A2 & B2 & C2).
    split; [eauto using same_config_trans | split; congruence].
Qed.

Lemma filter_setup_same_config (self : TEnKF) (g : G) (Z : list (vec F))
    (init_states : option (matrix F)) (seed : option nat) (store : bool) (su : setup) :
  filter_setup self g Z init_states seed store = Ok su ->
  same_config self (su_self su) /\ self_Z (su_self su) = Some Z
  /\ self_ll (su_self su) = self_ll self
  /\ self_Xs (su_self su)
     = Some (np_empty3 (length Z) (self_dim_x self) (self_N self)).
Proof.
  unfold filter_setup. intros H.
  inv_bind H. destruct a as [mus g1]. inv_bind H. destruct a as [epss g2].
  inv_bind H. destruct a as [X g3]. injection H as <-.
  destruct store; unfold same_config; simpl; tauto.
Qed.

(** X4.  [batch_filter] changes none of the attributes that [__init__] set ([N],
    the dimensions, [seed], [R], [Q], [P], [x]) and not [Ss]; it sets
    [self.Z] to the observations; it sets [self.ll] when [calc_ll] is set and
    leaves it otherwise; and without [store] the histories [X_priors],
    [X_bars] and [X_bar_priors] of an earlier stored run stay on the object
    as they were, beside the new [Xs]. *)
Theorem batch_filter_frame
    (self self1 : TEnKF) (g g1 : G) (Z : list (vec F))
    (init_states : option (matrix F)) (seed : option nat) (store calc_ll : bool)
    (r : retval) :
  batch_filter self g Z init_states seed store calc_ll = Ok (r, self1, g1) ->
  same_config self self1
  /\ self_Z self1 = Some Z
  /\ (if calc_ll then exists ll, r = RetLL ll /\ self_ll self1 = Some ll
      else self_ll self1 = self_ll self)
  /\ (store = false ->
      self_X_priors self1 = self_X_priors self
      /\ self_X_bars self1 = self_X_bars self
      /\ self_X_bar_priors self1 = self_X_bar_priors self).
Proof.
  intros H. pose proof (batch_filter_histories _ _ _ _ _ _ _ _ _ _ H) as (_ & Hh).
  apply batch_filter_inv in H as (su & X & ll & self' & Hsu & Hl & _ & Hr).
  apply filter_setup_same_config in Hsu as (A1 & B1 & C1 & _).
  unfold run_loop in Hl. apply filter_loop_same_config in Hl as (A2 & B2 & C2).
  pose proof (same_config_trans _ _ _ A1 A2) as A.
  assert (Hstale : store = false ->
            self_X_priors self1 = self_X_priors self
            /\ self_X_bars self1 = self_X_bars self
            /\ self_X_bar_priors self1 = self_X_bar_priors self)
    by (intros ->; exact Hh).
  destruct calc_ll.
  - destruct Hr as (-> & ->). split; [exact A|]. split; [simpl; congruence|].
    split; [eauto | exact Hstale].
  - destruct Hr as (a & _ & _ & ->). split; [exact A|]. split; [congruence|].
    split; [congruence | exact Hstale].
Qed.


End FrameFacts.

(** ** Edge cases of the two passes *)

Section EdgeFacts.
Context {F : Type} {SF : Scalar F} {CF : Collaborators F}.

(** X6.  [rts_smoother] on short histories, whatever else is on the object: with
    an empty [self.Xs] line 125 raises IndexError; with a single time step
    the loop has nothing to do, no other attribute is read, and the result is
    [self.Xs] rolled, kept as [self.Ss]. *)
Theorem rts_smoother_short_history
    (self : TEnKF) (xs : ndarray3 F) (means : option (list (vec F)))
    (covs : option (list (matrix F))) (rcond : F) :
  self_Xs self = Some xs ->
  length (cells xs) <= 1 ->
  rts_smoother self means covs rcond
  = match cells xs with
    | [] => Raise IndexError
    | _ => Ok (np_rollaxis2 xs, set_Ss (Some xs) self)
    end.
Proof.
  intros Hxs Hlen. unfold rts_smoother, getitem3_last, smoother_indices.
  rewrite Hxs. simpl.
  destruct (cells xs) as [|M [|M' l]]; simpl in *; [reflexivity | reflexivity | lia].
Qed.

Lemma smoother_step_set_Ss (self : TEnKF) (v : option (ndarray3 F)) (i : nat)
    (st : matrix F * ndarray3 F) :
  smoother_step (set_Ss v self) i st = smoother_step self i st.
Proof. reflexivity. Qed.

Lemma for_each_ext {A S : Type} (f g : A -> S -> result S) (l : list A) (s : S) :
  (forall a s', f a s' = g a s') -> for_each f l s = for_each g l s.
Proof.
  intros H. revert s. induction l as [|a l IH]; intros s; simpl; [reflexivity|].
  rewrite H. destruct (g a s); simpl; auto.
Qed.

(** X7.  [rts_smoother] reads the filter's histories and writes [self.Ss] only:
    the histories are on the object afterwards as they were, and calling it
    again returns the same smoothed history and leaves the same object. *)
Theorem rts_smoother_is_repeatable
    (self self2 : TEnKF) (means means' : option (list (vec F)))
    (covs covs' : option (list (matrix F))) (rcond rcond' : F) (out : ndarray3 F) :
  rts_smoother self means covs rcond = Ok (out, self2) ->
  self_Xs self2 = self_Xs self /\ self_X_priors self2 = self_X_priors self
  /\ self_X_bars self2 = self_X_bars self
  /\ self_X_bar_priors self2 = self_X_bar_priors self
  /\ rts_smoother self2 means' covs' rcond' = Ok (out, self2).
Proof.
  intros H.
  apply rts_smoother_inv in H as (xs & ss & S_last & S' & Hxs & Hlast & Hl & -> & ->).
  repeat split.
  unfold rts_smoother, getitem3_last, smoother_indices. simpl. rewrite Hxs. simpl.
  rewrite Hlast. simpl.
  rewrite (for_each_ext _ (smoother_step self)) by apply smoother_step_set_Ss.
  rewrite Hl. reflexivity.
Qed.


End EdgeFacts.

(** ** The prediction loop *)

Section PredictFacts.
Context {F : Type} {SF : Scalar F} {CF : Collaborators F}.

Lemma nth_insert_eq (row : vec F) (i : nat) (a : F) :
  i < length row -> nth i (<[i := a]> row) fzero = a.
Proof. intros H. now rewrite nth_lookup, list_lookup_insert_eq. Qed.

Lemma nth_insert_ne (row : vec F) (i j : nat) (a : F) :
  i <> j -> nth j (<[i := a]> row) fzero = nth j row fzero.
Proof. intros H. now rewrite !nth_lookup, list_lookup_insert_ne. Qed.

Lemma col_set_col_eq (D N i : nat) (v : vec F) (X : matrix F) :
  has_shape D N X = true -> length v = D -> i < N -> col i (set_col i v X) = v.
Proof.
  rewrite has_shape_spec. intros [H1 H2] Hv Hi. subst D.
  revert v Hv. induction H2 as [|row X Hrow HX IH]; intros [|a v] Hv; simpl in *;
    try discriminate; [reflexivity|].
  rewrite nth_insert_eq by lia. f_equal. apply IH. lia.
Qed.

Lemma col_set_col_ne (i j : nat) (v : vec F) (X : matrix F) :
  length v = length X -> i <> j -> col j (set_col i v X) = col j X.
Proof.
  intros Hv Hij. revert v Hv. induction X as [|row X IH]; intros [|a v] Hv; simpl in *;
    try discriminate; [reflexivity|].
  rewrite nth_insert_ne by assumption. f_equal. apply IH. lia.
Qed.

Lemma has_shape_set_col (D N i : nat) (v : vec F) (X : matrix F) :
  has_shape D N X = true -> length v = D -> has_shape D N (set_col i v X) = true.
Proof.
  rewrite !has_shape_spec. intros [H1 H2] Hv. unfold set_col. split.
  - rewrite length_zip_with. lia.
  - clear H1. revert v D Hv. induction H2 as [|row X Hrow HX IH]; intros [|a v] D Hv;
      simpl; try constructor.
    + now rewrite length_insert.
    + apply (IH v (length v)). reflexivity.
Qed.

Lemma getitem2_block (epss : list (list (vec F))) (block : list (vec F)) (nz i : nat) :
  epss !! nz = Some block -> i < length block ->
  getitem2 epss nz i = Ok (nth i block []).
Proof.
  intros Hb Hi. unfold getitem2, getitem1. rewrite Hb. simpl.
  destruct (lookup_lt_is_Some_2 block i Hi) as [e He]. rewrite He.
  now rewrite nth_lookup, He.
Qed.

(** The loop of lines 88-90 from column [k] on, entered with the columns
    before [k] already advanced. *)
Lemma predict_loop (D N nz : nat) (epss : list (list (vec F))) (block : list (vec F))
    (X0 : matrix F) :
  epss !! nz = Some block -> N <= length block ->
  (forall i, i < N -> length (t_func (col i X0) (nth i block [])) = D) ->
  forall (m k : nat) (X : matrix F),
    k + m = N -> has_shape D N X = true ->
    (forall j, j < k -> col j X = t_func (col j X0) (nth j block [])) ->
    (forall j, k <= j -> col j X = col j X0) ->
    exists Xp,
      for_each (fun i X => eps ← getitem2 epss nz i;
                           Ok (set_col i (t_func (col i X) eps) X)) (seq k m) X = Ok Xp
      /\ has_shape D N Xp = true
      /\ forall j, j < N -> col j Xp = t_func (col j X0) (nth j block []).
Proof.
  intros Hb Hlen Ht. induction m as [|m IH]; intros k X Hk HX Hdone Htodo.
  - exists X. simpl. repeat split; auto. intros j Hj. apply Hdone. lia.
  - cbn [seq for_each]. rewrite (getitem2_block _ block) by (assumption || lia).
    cbn [mbind result_bind]. rewrite (Htodo k) by lia.
    assert (Hv : length (t_func (col k X0) (nth k block [])) = D) by (apply Ht; lia).
    apply IH.
    + lia.
    + now apply has_shape_set_col.
    + intros j Hj. destruct (Nat.eq_dec j k) as [->|Hne].
      * apply (col_set_col_eq D N); auto. lia.
      * rewrite col_set_col_ne; [apply Hdone; lia | | lia].
        apply has_shape_spec in HX as [-> _]. assumption.
    + intros j Hj. rewrite col_set_col_ne; [apply Htodo; lia | | lia].
      apply has_shape_spec in HX as [-> _]. assumption.
Qed.

(** X9.  Lines 88-90 advance the members one at a time, in place; the result is
    the member-wise transition: member [i] of the predicted ensemble is
    [t_func] of member [i] of the ensemble before and of the i-th
    process-noise vector of the step, whatever happened to the members
    before it, and the shape of the ensemble is kept.  It needs [N] noise
    vectors for the step and transitions that return a state of the
    ensemble's dimension. *)
Theorem predict_is_memberwise
    (D N nz : nat) (epss : list (list (vec F))) (block : list (vec F)) (X : matrix F) :
  has_shape D N X = true -> 0 < D ->
  epss !! nz = Some block -> N <= length block ->
  (forall i, i < N -> length (t_func (col i X) (nth i block [])) = D) ->
  exists Xp,
    predict epss nz X = Ok Xp
    /\ has_shape D N Xp = true
    /\ forall i, i < N -> col i Xp = t_func (col i X) (nth i block []).
Proof.
  intros HX HD Hb Hlen Ht. unfold predict.
  rewrite (ncols_has_shape D N X HX HD).
  apply (predict_loop D N nz epss block X Hb Hlen Ht N 0 X); auto; intros j Hj; lia.
Qed.

End PredictFacts.

(** ** The stored histories *)

Section StoredFacts.
Context {F : Type} {SF : Scalar F} {CF : Collaborators F}.

(** A stored run from index [k] on: the entries before [k] of the four
    histories are untouched, and at every index of the run the anomaly
    histories hold the prior and the posterior ensemble of that index times
    the centring operator. *)
Lemma filter_loop_stored (N dim_z : nat) (R : matrix F) (I1 : vec F) (I2 : matrix F)
    (mus epss : list (list (vec F))) (calc_ll : bool) (Z : list (vec F)) :
  forall (k : nat) (X X' : matrix F) (ll ll' : F) (self self' : TEnKF)
         (xs xp xb xbp : ndarray3 F),
    filter_loop N dim_z R I1 I2 mus epss true calc_ll k Z (X, ll, self)
    = Ok (X', ll', self') ->
    self_Xs self = Some xs -> self_X_priors self = Some xp ->
    self_X_bars self = Some xb -> self_X_bar_priors self = Some xbp ->
    exists xs' xp' xb' xbp',
      self_Xs self' = Some xs' /\ self_X_priors self' = Some xp'
      /\ self_X_bars self' = Some xb' /\ self_X_bar_priors self' = Some xbp'
      /\ (forall j, j < k ->
            cells xs' !! j = cells xs !! j /\ cells xp' !! j = cells xp !! j
            /\ cells xb' !! j = cells xb !! j /\ cells xbp' !! j = cells xbp !! j)
      /\ (forall j, k <= j < k + length Z ->
            exists Xp Xj,
              cells xp' !! j = Some Xp /\ cells xbp' !! j = Some (matmul Xp I2)
              /\ cells xs' !! j = Some Xj /\ cells xb' !! j = Some (matmul Xj I2)).
Proof.
  induction Z as [|z Z IH]; intros k X X' ll ll' self self' xs xp xb xbp H H1 H2 H3 H4.
  - rewrite filter_loop_nil in H. injection H as <- <- <-.
    exists xs, xp, xb, xbp. repeat split; auto. simpl. intros j Hj. lia.
  - rewrite filter_loop_cons in H. inv_bind H. destruct a as [[X1 ll1] self1].
    apply filter_step_effect in Ha as (Xp & _ & [_ _ E1 E2 E3 E4]). simpl in E1.
    destruct E1 as (a1 & A1 & L1 & _ & E1). destruct E2 as (a2 & A2 & L2 & _ & E2).
    destruct E3 as (a3 & A3 & L3 & _ & E3). destruct E4 as (a4 & A4 & L4 & _ & E4).
    rewrite H1 in A1. rewrite H2 in A2. rewrite H3 in A3. rewrite H4 in A4.
    injection A1 as <-. injection A2 as <-. injection A3 as <-. injection A4 as <-.
    destruct (IH _ _ _ _ _ _ _ _ _ _ _ H E1 E2 E3 E4)
      as (xs' & xp' & xb' & xbp' & B1 & B2 & B3 & B4 & Hbefore & Hin).
    simpl in Hbefore.
    exists xs', xp', xb', xbp'. do 4 (split; [assumption|]). split.
    + intros j Hj. destruct (Hbefore j) as (C1 & C2 & C3 & C4); [lia|].
      rewrite C1, C2, C3, C4. rewrite !list_lookup_insert_ne by lia. auto.
    + intros j Hj. destruct (Nat.eq_dec j k) as [->|Hne].
      * destruct (Hbefore k) as (C1 & C2 & C3 & C4); [lia|].
        exists Xp, X1. rewrite C1, C2, C3, C4.
        rewrite !list_lookup_insert_eq by assumption. auto.
      * apply Hin. simpl in Hj. lia.
Qed.

(** X10.  After a run with [store] that returned, the four histories are on the
    object and agree at every time step [t]: [X_bar_priors[t]] is
    [X_priors[t] @ I2] and [X_bars[t]] is [Xs[t] @ I2], with [I2] the
    centring operator of line 62. *)
Theorem stored_anomalies_are_centred_ensembles
    (self self1 : TEnKF) (g g1 : G) (Z : list (vec F))
    (init_states : option (matrix F)) (seed : option nat) (calc_ll : bool)
    (r : retval) :
  batch_filter self g Z init_states seed true calc_ll = Ok (r, self1, g1) ->
  exists xs xp xb xbp,
    self_Xs self1 = Some xs /\ self_X_priors self1 = Some xp
    /\ self_X_bars self1 = Some xb /\ self_X_bar_priors self1 = Some xbp
    /\ forall t, t < length Z ->
         exists prior posterior,
           cells xp !! t = Some prior
           /\ cells xbp !! t = Some (matmul prior (centering (self_N self)))
           /\ cells xs !! t = Some posterior
           /\ cells xb !! t = Some (matmul posterior (centering (self_N self))).
Proof.
  intros H. apply batch_filter_inv in H as (su & X & ll & self' & Hsu & Hl & _ & Hr).
  apply filter_setup_inv in Hsu
    as (_ & _ & (a1 & A1 & _) & (a2 & A2 & _) & (a3 & A3 & _) & (a4 & A4 & _)).
  unfold run_loop in Hl.
  eapply filter_loop_stored in Hl
    as (xs & xp & xb & xbp & B1 & B2 & B3 & B4 & _ & Hin); eauto.
  assert (E : self_Xs self1 = self_Xs self' /\ self_X_priors self1 = self_X_priors self'
              /\ self_X_bars self1 = self_X_bars self'
              /\ self_X_bar_priors self1 = self_X_bar_priors self').
  { destruct calc_ll.
    - destruct Hr as (_ & ->). simpl. tauto.
    - destruct Hr as (a & _ & _ & ->). tauto. }
  destruct E as (-> & -> & -> & ->).
  exists xs, xp, xb, xbp. do 4 (split; [assumption|]).
  intros t Ht. apply Hin. lia.
Qed.

End StoredFacts.

(** ** Anomalies in exact arithmetic *)

Section AnomalyAlgebra.
Context {F : Type} {SF : Scalar F} {CF : Collaborators F}.
Variables (fopp finv : F -> F).
Hypothesis Fth : field_theory fzero fone fadd fmul fsub fopp fdiv finv eq.
Add Field Ffield2 : Fth.

#[local] Open Scope F_scope.

Lemma of_nat_S (n : nat) : of_nat (S n) = of_nat n + fone.
Proof. destruct n; simpl; [ring | reflexivity]. Qed.

Lemma vsum_map_sub (c : F) (x : vec F) :
  vsum (map (fun v => v - c) x) = vsum x - of_nat (length x) * c.
Proof.
  induction x as [|a x IH].
  - simpl. ring.
  - simpl length. rewrite of_nat_S. simpl map. simpl vsum.
    change (fold_right fadd fzero (map (fun v => v - c) x))
      with (vsum (map (fun v => v - c) x)).
    change (fold_right fadd fzero x) with (vsum x). rewrite IH. ring.
Qed.

Lemma vsum_repeat (c : F) (n : nat) : vsum (repeat c n) = of_nat n * c.
Proof.
  induction n as [|n IH].
  - simpl. ring.
  - rewrite of_nat_S. simpl repeat. simpl vsum.
    change (fold_right fadd fzero (repeat c n)) with (vsum (repeat c n)).
    rewrite IH. ring.
Qed.

(** The rows of an array times the centring operator sum to zero. *)
Lemma centred_rows_sum_to_zero (r N : nat) (M : matrix F) :
  has_shape r N M = true -> of_nat N <> fzero ->
  rows_sum_to_zero (matmul M (centering N)).
Proof.
  intros H HN. rewrite (matmul_centering fopp finv Fth r N M H).
  apply has_shape_spec in H as [_ H]. unfold rows_sum_to_zero, spec_center.
  apply List.Forall_forall. intros row' Hin.
  apply in_map_iff in Hin as (row & <- & Hrow).
  rewrite List.Forall_forall in H. specialize (H row Hrow).
  cbv zeta. rewrite vsum_map_sub, H. field. assumption.
Qed.

(** X11.  After a run with [store] that returned (scalars forming a field in
    which [N] is not zero), every row of every stored anomaly, prior or
    posterior, sums to zero: the anomalies of an ensemble have mean zero in
    every state component. *)
Theorem stored_anomalies_have_zero_mean
    (self self1 : TEnKF) (g g1 : G) (Z : list (vec F))
    (init_states : option (matrix F)) (seed : option nat) (calc_ll : bool)
    (r : retval) :
  of_nat (self_N self) <> fzero ->
  batch_filter self g Z init_states seed true calc_ll = Ok (r, self1, g1) ->
  exists xb xbp,
    self_X_bars self1 = Some xb /\ self_X_bar_priors self1 = Some xbp
    /\ length (cells xb) = length Z /\ length (cells xbp) = length Z
    /\ Forall rows_sum_to_zero (cells xb) /\ Forall rows_sum_to_zero (cells xbp).
Proof.
  intros HN H.
  pose proof (batch_filter_histories _ _ _ _ _ _ _ _ _ _ H)
    as ((xs0 & K1 & _ & _ & _ & Fxs) & (xp0 & K2 & _ & _ & _ & Fxp)
        & (xb0 & K3 & Lxb & _) & (xbp0 & K4 & Lxbp & _)).
  apply batch_filter_inv in H as (su & X & ll & self' & Hsu & Hl & _ & Hr).
  apply filter_setup_inv in Hsu
    as (_ & _ & (a1 & A1 & _) & (a2 & A2 & _) & (a3 & A3 & _) & (a4 & A4 & _)).
  unfold run_loop in Hl.
  eapply filter_loop_stored in Hl
    as (xs & xp & xb & xbp & B1 & B2 & B3 & B4 & _ & Hin); eauto.
  assert (E : self_Xs self1 = self_Xs self' /\ self_X_priors self1 = self_X_priors self'
              /\ self_X_bars self1 = self_X_bars self'
              /\ self_X_bar_priors self1 = self_X_bar_priors self').
  { destruct calc_ll.
    - destruct Hr as (_ & ->). simpl. tauto.
    - destruct Hr as (a & _ & _ & ->). tauto. }
  destruct E as (E1 & E2 & E3 & E4).
  rewrite E1, B1 in K1. rewrite E2, B2 in K2. rewrite E3, B3 in K3. rewrite E4, B4 in K4.
  injection K1 as <-. injection K2 as <-. injection K3 as <-. injection K4 as <-.
  exists xb, xbp. rewrite E3, E4. do 4 (split; [assumption|]).
  rewrite List.Forall_forall in Fxs, Fxp.
  split; apply Forall_lookup_2; intros t M HM.
  - assert (Ht : t < length Z) by (rewrite <- Lxb; eapply lookup_lt_Some; eauto).
    destruct (Hin t) as (prior & posterior & _ & _ & C3 & C4); [lia|].
    rewrite C4 in HM. injection HM as <-.
    apply (centred_rows_sum_to_zero (self_dim_x self)); [|assumption].
    apply Fxs. eapply list_elem_of_In, list_elem_of_lookup_2; eauto.
  - assert (Ht : t < length Z) by (rewrite <- Lxbp; eapply lookup_lt_Some; eauto).
    destruct (Hin t) as (prior & posterior & C1 & C2 & _ & _); [lia|].
    rewrite C2 in HM. injection HM as <-.
    apply (centred_rows_sum_to_zero (self_dim_x self)); [|assumption].
    apply Fxp. eapply list_elem_of_In, list_elem_of_lookup_2; eauto.
Qed.

Lemma dot_zeros_l (n : nat) (v : vec F) : dot (repeat fzero n) v = fzero.
Proof.
  unfold dot. revert v. induction n as [|n IH]; intros [|b v]; simpl; try reflexivity.
  change (fold_right fadd fzero (zip_with fmul (repeat fzero n) v))
    with (vsum (zip_with fmul (repeat fzero n) v)).
  rewrite IH. ring.
Qed.

(** The product of an array with zero rows is an array of zero rows. *)
Lemma matmul_zero_rows (A B : matrix F) :
  Forall (fun row => row = repeat fzero (length row)) A ->
  matmul A B = map (fun _ => repeat fzero (ncols B)) A.
Proof.
  intros H. unfold matmul. apply map_ext_in. intros row Hrow.
  rewrite List.Forall_forall in H. rewrite (H row Hrow).
  rewrite (repeat_map_seq fzero (ncols B) 0).
  apply map_ext. intros j. apply dot_zeros_l.
Qed.

Lemma spec_center_collapsed (r N : nat) (M : matrix F) :
  has_shape r N M = true -> collapsed M -> of_nat N <> fzero ->
  spec_center M = map (fun _ => repeat fzero N) M.
Proof.
  intros H Hc HN. apply has_shape_spec in H as [_ H]. unfold spec_center.
  apply map_ext_in. intros row Hrow. unfold collapsed in Hc.
  rewrite List.Forall_forall in H, Hc.
  destruct (Hc row Hrow) as (c & Hrep). rewrite (H row Hrow) in *.
  rewrite Hrep. rewrite vsum_repeat.
  rewrite (repeat_map_seq c N 0), (repeat_map_seq fzero N 0), List.map_map.
  apply map_ext. intros _. field. assumption.
Qed.

(** X12.  A collapsed ensemble (all members equal) is not moved by the update of
    line 102, whatever the observation, the observation noise and the
    inverted matrix are: its anomaly is zero, and so is the gain. *)
Theorem collapsed_ensemble_is_not_updated
    (N D dz : nat) (X Y S_inv : matrix F) (mu : list (vec F)) (z : vec F) :
  (1 <= dz)%nat -> of_nat N <> fzero ->
  has_shape D N X = true -> has_shape dz N Y = true ->
  has_shape N dz mu = true -> length z = dz ->
  collapsed X ->
  mat_add X (kalman_update (np_ones N) (centering N) X Y S_inv mu z) = X.
Proof.
  intros Hdz HN HX HY Hmu Hz Hc.
  assert (HN0 : (0 < N)%nat) by (destruct N; [now elim HN | lia]).
  unfold kalman_update.
  rewrite (matmul_centering fopp finv Fth D N X HX).
  rewrite (spec_center_collapsed D N X HX Hc HN).
  assert (Z1 : forall (n : nat) (B : matrix F),
             matmul (map (fun _ : list F => repeat fzero n) X) B
             = map (fun _ => repeat fzero (ncols B)) X).
  { intros n B. rewrite matmul_zero_rows.
    - now rewrite List.map_map.
    - apply List.Forall_forall. intros row Hrow.
      apply in_map_iff in Hrow as (? & <- & _). now rewrite repeat_length. }
  rewrite !Z1.
  assert (HZZ : has_shape dz N (np_outer z (np_ones N)) = true)
    by (rewrite <- Hz; apply has_shape_np_outer_ones).
  assert (HmuT : has_shape dz N (transpose mu) = true)
    by (apply has_shape_transpose; [assumption|lia]).
  pose proof (has_shape_mat_sub _ _ _ _ HZZ HY) as H1.
  pose proof (has_shape_mat_sub _ _ _ _ H1 HmuT) as H2.
  rewrite (ncols_has_shape dz N _ H2) by lia.
  apply has_shape_spec in HX as [_ HX]. unfold mat_add.
  rewrite zip_with_map_r_same. rewrite <- (map_id X) at 2.
  apply map_ext_in. intros row Hrow. rewrite List.Forall_forall in HX.
  specialize (HX row Hrow). unfold vadd. clear -HX Fth. subst N.
  induction row as [|a row IH]; simpl; [reflexivity|]. rewrite IH. f_equal. ring.
Qed.

End AnomalyAlgebra.

(** ** The flags and the filtered ensembles *)

Section FlagFacts.
Context {F : Type} {SF : Scalar F} {CF : Collaborators F}.

Lemma filter_setup_store_irrelevant (self : TEnKF) (g : G) (Z : list (vec F))
    (init_states : option (matrix F)) (seed : option nat) (store store' : bool)
    (su su' : setup) :
  filter_setup self g Z init_states seed store = Ok su ->
  filter_setup self g Z init_states seed store' = Ok su' ->
  su_mus su = su_mus su' /\ su_epss su = su_epss su' /\ su_X su = su_X su'
  /\ su_g su = su_g su' /\ self_Xs (su_self su) = self_Xs (su_self su').
Proof.
  unfold filter_setup, initial_ensemble, reseed.
  rewrite !self_seed_allocate.
  destruct (allocate_histories_fields store (length Z) (set_Z (Some Z) self))
    as (E1 & E2 & E3 & E4 & E5 & E6 & E7 & _).
  destruct (allocate_histories_fields store' (length Z) (set_Z (Some Z) self))
    as (E1' & E2' & E3' & E4' & E5' & E6' & E7' & _).
  cbv zeta in *. rewrite E1, E2, E3, E4, E5, E6, E7, E1', E2', E3', E4', E5', E6', E7'.
  intros H H'.
  inv_bind H. destruct a as [mus g1]. rewrite Ha in H'. cbn [mbind result_bind] in H'.
  inv_bind H. destruct a as [epss g2]. rewrite Ha0 in H'. cbn [mbind result_bind] in H'.
  inv_bind H. destruct a as [X g3]. rewrite Ha1 in H'. cbn [mbind result_bind] in H'.
  injection H as <-. injection H' as <-. simpl. auto.
Qed.

(** Two runs of the loop over the same observations from the same ensemble,
    with the same noise, end with the same ensemble whatever [store] and
    [calc_ll] are in each; when neither has [calc_ll] and they start with the
    same [self.Xs], they end with the same [self.Xs]. *)
Lemma filter_loop_flags_irrelevant (N dim_z : nat) (R : matrix F) (I1 : vec F)
    (I2 : matrix F) (mus epss : list (list (vec F))) (store store' calc calc' : bool)
    (Z : list (vec F)) :
  forall (k : nat) (X X1 X2 : matrix F) (ll ll' l1 l2 : F) (self self' s1 s2 : TEnKF),
    filter_loop N dim_z R I1 I2 mus epss store calc k Z (X, ll, self) = Ok (X1, l1, s1) ->
    filter_loop N dim_z R I1 I2 mus epss store' calc' k Z (X, ll', self')
    = Ok (X2, l2, s2) ->
    X1 = X2
    /\ (calc = false -> calc' = false -> self_Xs self = self_Xs self' ->
        self_Xs s1 = self_Xs s2).
Proof.
  induction Z as [|z Z IH]; intros k X X1 X2 ll ll' l1 l2 self self' s1 s2 H H'.
  - rewrite filter_loop_nil in H, H'. injection H as <- <- <-. injection H' as <- <- <-.
    auto.
  - rewrite filter_loop_cons in H, H'.
    inv_bind H. destruct a as [[Xa lla] sa]. inv_bind H'. destruct a as [[Xb llb] sb].
    pose proof (filter_step_effect _ _ _ _ _ _ _ _ _ _ _ _ _ _ _ _ _ Ha)
      as (Xp & _ & [_ _ Ea _ _ _]).
    pose proof (filter_step_effect _ _ _ _ _ _ _ _ _ _ _ _ _ _ _ _ _ Ha0)
      as (Xp' & _ & [_ _ Eb _ _ _]).
    apply filter_step_inv in Ha
      as (P1 & ? & Si1 & m1 & ? & Hp1 & _ & Hi1 & Hm1 & HX1 & _).
    apply filter_step_inv in Ha0
      as (P2 & ? & Si2 & m2 & ? & Hp2 & _ & Hi2 & Hm2 & HX2 & _).
    rewrite Hp1 in Hp2. injection Hp2 as <-.
    rewrite Hi1 in Hi2. injection Hi2 as <-.
    rewrite Hm1 in Hm2. injection Hm2 as <-.
    subst Xa Xb.
    destruct (IH _ _ _ _ _ _ _ _ _ _ _ _ H H') as (EX & EXs).
    split; [assumption|]. intros -> -> Hsame. apply EXs; auto.
    rewrite !orb_true_r in Ea, Eb.
    destruct Ea as (a & A1 & _ & _ & ->). destruct Eb as (b & B1 & _ & _ & ->).
    rewrite Hsame, B1 in A1. now injection A1 as <-.
Qed.

(** X13.  Recording the histories does not change what [batch_filter] computes:
    two calls that differ in [store] only, both returning the history
    ([calc_ll] not set), return the same array and leave the generator in
    the same state. *)
Theorem store_does_not_change_the_result
    (self s1 s2 : TEnKF) (g g1 g2 : G) (Z : list (vec F))
    (init_states : option (matrix F)) (seed : option nat) (store store' : bool)
    (r1 r2 : retval) :
  batch_filter self g Z init_states seed store false = Ok (r1, s1, g1) ->
  batch_filter self g Z init_states seed store' false = Ok (r2, s2, g2) ->
  r1 = r2 /\ g1 = g2 /\ self_Xs s1 = self_Xs s2.
Proof.
  intros H H'.
  apply batch_filter_inv in H as (su & X & ll & self' & Hsu & Hl & -> & a & Ha & -> & ->).
  apply batch_filter_inv in H'
    as (su' & X' & ll' & self'' & Hsu' & Hl' & -> & b & Hb & -> & ->).
  destruct (filter_setup_store_irrelevant _ _ _ _ _ _ _ _ _ Hsu Hsu')
    as (E1 & E2 & E3 & E4 & E5).
  unfold run_loop in Hl, Hl'. rewrite <- E1, <- E2, <- E3 in Hl'.
  edestruct filter_loop_flags_irrelevant as (_ & EXs); [exact Hl | exact Hl' |].
  specialize (EXs eq_refl eq_refl E5). rewrite Ha, Hb in EXs. injection EXs as <-.
  rewrite Ha, Hb. auto.
Qed.

(** X14.  The log-likelihood does not depend on [store] either: two calls with
    [calc_ll] that differ in [store] only and both return, return the same
    [ll]. *)
Theorem store_does_not_change_the_likelihood
    (self s1 s2 : TEnKF) (g g1 g2 : G) (Z : list (vec F))
    (init_states : option (matrix F)) (seed : option nat) (store store' : bool)
    (r1 r2 : retval) :
  batch_filter self g Z init_states seed store true = Ok (r1, s1, g1) ->
  batch_filter self g Z init_states seed store' true = Ok (r2, s2, g2) ->
  r1 = r2 /\ g1 = g2.
Proof.
  intros H H'.
  apply batch_filter_inv in H as (su & X & ll & self' & Hsu & Hl & -> & -> & ->).
  apply batch_filter_inv in H' as (su' & X' & ll' & self'' & Hsu' & Hl' & -> & -> & ->).
  destruct (filter_setup_store_irrelevant _ _ _ _ _ _ _ _ _ Hsu Hsu')
    as (E1 & E2 & E3 & E4 & E5).
  unfold run_loop in Hl, Hl'. rewrite <- E1, <- E2, <- E3 in Hl'.
  split; [|assumption]. f_equal.
  clear -Hl Hl'. revert Hl Hl'.
  generalize (su_X su), (@fzero F SF), (su_self su), (su_self su'), 0.
  induction Z as [|z Z IH]; intros X0 ll0 sa sb k Hl Hl'.
  - rewrite filter_loop_nil in Hl, Hl'. congruence.
  - rewrite filter_loop_cons in Hl, Hl'.
    inv_bind Hl. destruct a as [[Xa lla] sa']. inv_bind Hl'. destruct a as [[Xb llb] sb'].
    apply filter_step_inv in Ha
      as (P1 & ? & Si1 & m1 & ? & Hp1 & _ & Hi1 & Hm1 & HX1 & _ & HL1 & _).
    apply filter_step_inv in Ha0
      as (P2 & ? & Si2 & m2 & ? & Hp2 & _ & Hi2 & Hm2 & HX2 & _ & HL2 & _).
    rewrite Hp1 in Hp2. injection Hp2 as <-.
    rewrite Hi1 in Hi2. injection Hi2 as <-.
    rewrite Hm1 in Hm2. injection Hm2 as <-.
    subst lla llb Xa Xb. eapply IH; eauto.
Qed.

End FlagFacts.

(** ** The further properties on concrete inputs *)

Lemma batch_filter_seeded_is_reproducible_witness :
  batch_filter enkf_2_1_1 (rng 0) [[1%Q]] None (Some 7) false false
  = batch_filter enkf_2_1_1 (rng 5) [[1%Q]] None (Some 7) false false.
Proof.
  apply (batch_filter_seeded_is_reproducible enkf_2_1_1 (rng 0) (rng 5) [[1%Q]] None
           (Some 7) false false).
  reflexivity.
Defined.

Lemma batch_filter_seed_zero_is_no_seed_witness :
  batch_filter enkf_2_1_1 (rng 3) [[1%Q]] None (Some 0) false false
  = batch_filter enkf_2_1_1 (rng 3) [[1%Q]] None None false false.
Proof.
  apply (batch_filter_seed_zero_is_no_seed enkf_2_1_1 (rng 3) [[1%Q]] None false false).
  reflexivity.
Defined.


Lemma batch_filter_frame_witness :
  exists r self1 g1,
    batch_filter enkf_2_1_1 (rng 0) [[1%Q]; [2%Q]] None None false true = Ok (r, self1, g1)
    /\ same_config enkf_2_1_1 self1 /\ self_Z self1 = Some [[1%Q]; [2%Q]]
    /\ self_X_bars self1 = None.
Proof.
  destruct (batch_filter enkf_2_1_1 (rng 0) [[1%Q]; [2%Q]] None None false true)
    as [[[r self1] g1]|e] eqn:E; [|exfalso; vm_compute in E; discriminate].
  exists r, self1, g1. split; [reflexivity|].
  destruct (batch_filter_frame enkf_2_1_1 self1 (rng 0) g1 [[1%Q]; [2%Q]] None None
              false true r E) as (H1 & H2 & _ & H4).
  destruct (H4 eq_refl) as (_ & H5 & _). auto.
Defined.


Lemma rts_smoother_short_history_witness :
  rts_smoother enkf_one_step None None 0%Q
  = Ok (mk_ndarray3 1 1 [[[1%Q]]; [[2%Q]]],
        set_Ss (Some (mk_ndarray3 1 2 [[[1%Q; 2%Q]]])) enkf_one_step).
Proof.
  rewrite (rts_smoother_short_history enkf_one_step (mk_ndarray3 1 2 [[[1%Q; 2%Q]]])
             None None 0%Q eq_refl); [reflexivity | simpl; lia].
Defined.

Lemma rts_smoother_is_repeatable_witness :
  exists out self2,
    rts_smoother enkf_one_step None None 0%Q = Ok (out, self2)
    /\ rts_smoother self2 None None 1%Q = Ok (out, self2).
Proof.
  destruct (rts_smoother enkf_one_step None None 0%Q) as [[out self2]|e] eqn:E;
    [|exfalso; vm_compute in E; discriminate].
  exists out, self2. split; [reflexivity|].
  apply (rts_smoother_is_repeatable enkf_one_step self2 None None None None 0%Q 1%Q out E).
Defined.

Lemma predict_is_memberwise_witness :
  exists Xp,
    predict [[[1 # 8]; [1 # 2]]]%Q 0 [[0%Q; 1%Q]] = Ok Xp
    /\ col 0 Xp = t_func [0%Q] [1 # 8]%Q /\ col 1 Xp = t_func [1%Q] [1 # 2]%Q.
Proof.
  destruct (predict_is_memberwise 1 2 0 [[[1 # 8]; [1 # 2]]]%Q [[1 # 8]; [1 # 2]]%Q
              [[0%Q; 1%Q]]) as (Xp & H1 & _ & H3).
  - reflexivity.
  - lia.
  - reflexivity.
  - simpl. lia.
  - intros [|[|i]] Hi; [reflexivity | reflexivity | lia].
  - exists Xp. split; [assumption|]. split; [apply (H3 0) | apply (H3 1)]; lia.
Defined.

Lemma stored_anomalies_are_centred_ensembles_witness :
  exists r self1 g1 xs xb posterior,
    batch_filter enkf_2_1_1 (rng 0) [[1%Q]; [2%Q]] None None true false = Ok (r, self1, g1)
    /\ self_Xs self1 = Some xs /\ self_X_bars self1 = Some xb
    /\ cells xs !! 1 = Some posterior
    /\ cells xb !! 1 = Some (matmul posterior (centering 2)).
Proof.
  destruct (batch_filter enkf_2_1_1 (rng 0) [[1%Q]; [2%Q]] None None true false)
    as [[[r self1] g1]|e] eqn:E; [|exfalso; vm_compute in E; discriminate].
  destruct (stored_anomalies_are_centred_ensembles enkf_2_1_1 self1 (rng 0) g1
              [[1%Q]; [2%Q]] None None false r E)
    as (xs & xp & xb & xbp & H1 & _ & H3 & _ & Hall).
  destruct (Hall 1) as (prior & posterior & _ & _ & H5 & H6); [simpl; lia|].
  exists r, self1, g1, xs, xb, posterior. auto 10.
Defined.

Lemma of_nat_2_nonzero_Qc : of_nat (F := Qc) 2 <> fzero.
Proof. intros H. apply (f_equal this) in H. vm_compute in H. discriminate. Qed.

Lemma stored_anomalies_have_zero_mean_witness :
  exists r self1 g1 xb xbp,
    batch_filter enkf_Qc (rng 0) [[Q2Qc 1]] None None true false = Ok (r, self1, g1)
    /\ self_X_bars self1 = Some xb /\ self_X_bar_priors self1 = Some xbp
    /\ Forall rows_sum_to_zero (cells xb) /\ Forall rows_sum_to_zero (cells xbp).
Proof.
  destruct (batch_filter enkf_Qc (rng 0) [[Q2Qc 1]] None None true false)
    as [[[r self1] g1]|e] eqn:E; [|exfalso; vm_compute in E; discriminate].
  destruct (stored_anomalies_have_zero_mean (F := Qc) (SF := Qc_scalar) Qcopp Qcinv Qcft
              enkf_Qc self1 (rng 0) g1 [[Q2Qc 1]] None None false r
              of_nat_2_nonzero_Qc E)
    as (xb & xbp & H1 & H2 & _ & _ & H5 & H6).
  exists r, self1, g1, xb, xbp. auto 10.
Defined.

Lemma collapsed_ensemble_is_not_updated_witness :
  mat_add [[Q2Qc 1; Q2Qc 1]]
    (kalman_update (np_ones 2) (centering 2) [[Q2Qc 1; Q2Qc 1]] [[Q2Qc 0; Q2Qc 2]]
       [[Q2Qc 1]] [[Q2Qc 0]; [Q2Qc 0]] [Q2Qc 1])
  = [[Q2Qc 1; Q2Qc 1]].
Proof.
  apply (collapsed_ensemble_is_not_updated (F := Qc) (SF := Qc_scalar) Qcopp Qcinv Qcft
           2 1 1 [[Q2Qc 1; Q2Qc 1]] [[Q2Qc 0; Q2Qc 2]] [[Q2Qc 1]]
           [[Q2Qc 0]; [Q2Qc 0]] [Q2Qc 1]).
  - lia.
  - exact of_nat_2_nonzero_Qc.
  - reflexivity.
  - reflexivity.
  - reflexivity.
  - reflexivity.
  - constructor; [|constructor]. exists (Q2Qc 1). reflexivity.
Defined.

Lemma store_does_not_change_the_result_witness :
  exists r s1 g1 s2,
    batch_filter enkf_2_1_1 (rng 0) [[1%Q]; [2%Q]] None None true false = Ok (r, s1, g1)
    /\ batch_filter enkf_2_1_1 (rng 0) [[1%Q]; [2%Q]] None None false false
       = Ok (r, s2, g1).
Proof.
  destruct (batch_filter enkf_2_1_1 (rng 0) [[1%Q]; [2%Q]] None None true false)
    as [[[r1 s1] g1]|e] eqn:E1; [|exfalso; vm_compute in E1; discriminate].
  destruct (batch_filter enkf_2_1_1 (rng 0) [[1%Q]; [2%Q]] None None false false)
    as [[[r2 s2] g2]|e] eqn:E2; [|exfalso; vm_compute in E2; discriminate].
  destruct (store_does_not_change_the_result enkf_2_1_1 s1 s2 (rng 0) g1 g2
              [[1%Q]; [2%Q]] None None true false r1 r2 E1 E2) as (-> & -> & _).
  exists r2, s1, g2, s2. split; reflexivity.
Defined.

Lemma store_does_not_change_the_likelihood_witness :
  exists r s1 g1 s2,
    batch_filter enkf_2_1_1 (rng 0) [[1%Q]; [2%Q]] None None true true = Ok (r, s1, g1)
    /\ batch_filter enkf_2_1_1 (rng 0) [[1%Q]; [2%Q]] None None false true
       = Ok (r, s2, g1).
Proof.
  destruct (batch_filter enkf_2_1_1 (rng 0) [[1%Q]; [2%Q]] None None true true)
    as [[[r1 s1] g1]|e] eqn:E1; [|exfalso; vm_compute in E1; discriminate].
  destruct (batch_filter enkf_2_1_1 (rng 0) [[1%Q]; [2%Q]] None None false true)
    as [[[r2 s2] g2]|e] eqn:E2; [|exfalso; vm_compute in E2; discriminate].
  destruct (store_does_not_change_the_likelihood enkf_2_1_1 s1 s2 (rng 0) g1 g2
              [[1%Q]; [2%Q]] None None true false r1 r2 E1 E2) as (-> & ->).
  exists r2, s1, g2, s2. split; reflexivity.
Defined.
